(** * Sequencer image cache (blender::seq, image_cache.cc)

    A shallow embedding of the in-memory sequencer cache: cache keys with
    their hash and comparison functions, the hash table of linked keys, the
    recycling policy, invalidation and the public store/fetch entry points,
    followed by the properties of the specification that were checked
    against it. *)

From Stdlib Require Import ZArith Lia Bool List.
From Stdlib Require Import Floats.SpecFloat.
From stdpp Require Import base option list gmap.

Local Open Scope Z_scope.

(** ** Machine data *)

(** Addresses of heap objects.  A nullable C pointer is an [option ptr]. *)
Abbreviation ptr := positive (only parsing).

(** [uint]: 32 bits, arithmetic wraps around. *)
Definition u32 (z : Z) : Z := z mod 2 ^ 32.

(** C truth value of an integer expression. *)
Definition nonzero (z : Z) : bool := negb (z =? 0).

Definition INT_MIN : Z := - 2 ^ 31.
Definition INT_MAX : Z := 2 ^ 31 - 1.

(** C [float]: IEEE 754 binary32, over the Standard Library's specification
    of floating-point numbers. *)
Module F32.
Definition prec : Z := 24.
Definition emax : Z := 128.

Definition add : spec_float -> spec_float -> spec_float := SFadd prec emax.
Definition sub : spec_float -> spec_float -> spec_float := SFsub prec emax.
Definition mul : spec_float -> spec_float -> spec_float := SFmul prec emax.

(** [a == b] and [a != b]; a NaN differs from everything, and the two
    zeros are equal. *)
Definition eqb (a b : spec_float) : bool := SFeqb a b.
Definition neb (a b : spec_float) : bool := negb (SFeqb a b).
Definition ltb (a b : spec_float) : bool := SFltb a b.

(** Conversion of an [int] to [float] (round to nearest even). *)
Definition of_int (z : Z) : spec_float := binary_normalize prec emax z 0 false.

(** Conversion of a [float] to [int]: truncation toward zero.  C leaves the
    conversion of a NaN, an infinity or a value outside the range of [int]
    undefined; x86 yields [INT_MIN] there and so does this function. *)
Definition to_int (f : spec_float) : Z :=
  match f with
  | S754_zero _ => 0
  | S754_finite s m e =>
      let a := if 0 <=? e then Z.pos m * 2 ^ e else Z.pos m / 2 ^ (- e) in
      let v := if s then - a else a in
      if (INT_MIN <=? v) && (v <=? INT_MAX) then v else INT_MIN
  | _ => INT_MIN
  end.

(** The object representation read by [*(const uint * )&f]: sign bit,
    biased exponent, fraction.  All NaNs are given the quiet NaN
    pattern. *)
Definition bits (f : spec_float) : Z :=
  let sign (s : bool) := if s then 2 ^ 31 else 0 in
  match f with
  | S754_zero s => sign s
  | S754_infinity s => sign s + 255 * 2 ^ 23
  | S754_nan => 255 * 2 ^ 23 + 2 ^ 22
  | S754_finite s m e =>
      if Z.pos m <? 2 ^ 23 then sign s + Z.pos m
      else sign s + (e + 150) * 2 ^ 23 + (Z.pos m - 2 ^ 23)
  end.

Definition zero : spec_float := S754_zero false.
Definition neg_zero : spec_float := S754_zero true.
End F32.

Abbreviation float := spec_float (only parsing).

(** ** Constants of DNA_sequence_types.h *)

(** Modelled from the spec: the cache stage flags and the other bit flags
    tested by the cache live in a header that is not part of the sources at
    hand; the spec says stages are "bitmask-capable", so each is one bit. *)
Definition SEQ_CACHE_STORE_RAW : Z := 1.
Definition SEQ_CACHE_STORE_PREPROCESSED : Z := 2.
Definition SEQ_CACHE_STORE_COMPOSITE : Z := 4.
Definition SEQ_CACHE_STORE_FINAL_OUT : Z := 8.
Definition SEQ_CACHE_OVERRIDE : Z := 16.
Definition SEQ_CACHE_PREFETCH_ENABLE : Z := 1024.
Definition STRIP_TYPE_EFFECT : Z := 8.

(** ** Data model *)

(** A strip, as far as the cache reads it: its identity (the address the
    [Strip *] holds) and the two fields the cache accesses directly.  No
    cache function writes to a strip. *)
Record Strip := {
  strip_addr : ptr;
  strip_type : Z;          (* strip->type *)
  strip_cache_flag : Z;    (* strip->cache_flag *)
}.

Record RenderData := {
  bmain : ptr;
  scene : ptr;
  rectx : Z;
  recty : Z;
  preview_render_size : Z;
  motion_blur_shutter : float;
  motion_blur_samples : Z;
  view_id : Z;
  skip_cache : bool;
  is_proxy_render : bool;
  is_prefetch_render : bool;
  for_render : bool;
  context_task_id : Z;
}.

Record SeqCacheKey := {
  strip : Strip;
  context : RenderData;
  frame_index : float;
  type : Z;
  link_prev : option ptr;
  link_next : option ptr;
  is_temp_cache : bool;
  task_id : Z;
}.

Record SeqCacheItem := {
  ibuf : option ptr;
}.

Definition set_link_prev (v : option ptr) (k : SeqCacheKey) : SeqCacheKey :=
  {| strip := strip k; context := context k; frame_index := frame_index k;
     type := type k; link_prev := v; link_next := link_next k;
     is_temp_cache := is_temp_cache k; task_id := task_id k |}.

Definition set_link_next (v : option ptr) (k : SeqCacheKey) : SeqCacheKey :=
  {| strip := strip k; context := context k; frame_index := frame_index k;
     type := type k; link_prev := link_prev k; link_next := v;
     is_temp_cache := is_temp_cache k; task_id := task_id k |}.

Definition set_is_temp_cache (v : bool) (k : SeqCacheKey) : SeqCacheKey :=
  {| strip := strip k; context := context k; frame_index := frame_index k;
     type := type k; link_prev := link_prev k; link_next := link_next k;
     is_temp_cache := v; task_id := task_id k |}.

(** The hash table.  Keys are pool-allocated objects and the table stores
    pointers to them; a key object is allocated exactly while it is in the
    table, so one finite map from the key's address to the key object and
    its item is both the key pool and the table.  A pointer that is not in
    the map is a pointer to a freed key. *)
Abbreviation GHash := (gmap positive (SeqCacheKey * SeqCacheItem)) (only parsing).

(** Image buffers are reference counted: the map gives, for every live
    buffer, the number of references held on it beyond the first. *)
Abbreviation ImBufs := (gmap positive nat) (only parsing).

(** Modelled from the spec: the image buffer library is not part of the
    sources at hand; an artifact is "reference-counted; the cache holds one
    reference; callers that fetch get an additional reference they must
    release".  Releasing the last reference frees the buffer. *)
Definition IMB_refImBuf (ib : ptr) (ims : ImBufs) : ImBufs := alter S ib ims.

Definition IMB_freeImBuf (ib : ptr) (ims : ImBufs) : ImBufs :=
  match ims !! ib with
  | Some (S n) => <[ib := n]> ims
  | Some O => delete ib ims
  | None => ims
  end.

(** ** Outcomes

    A call either returns, dereferences a null pointer or a pointer to a
    freed key (undefined behaviour in C), or is still looping when the fuel
    given to its loops is used up. *)
Inductive outcome (A : Type) : Type :=
  | Done (a : A)
  | Undefined
  | Timeout.
Arguments Done {A} a.
Arguments Undefined {A}.
Arguments Timeout {A}.

#[global] Instance outcome_bind : MBind outcome := fun A B f m =>
  match m with
  | Done a => f a
  | Undefined => Undefined
  | Timeout => Timeout
  end.

(** ** The hash table

    Modelled from the spec: the generic hash table (BLI_ghash) is not part
    of the sources at hand.  A lookup returns the item of an entry whose key
    compares equal under the table's comparison callback; the iterator
    visits every entry once. *)
Definition BLI_ghash_lookup (cmp : SeqCacheKey -> SeqCacheKey -> bool)
    (h : GHash) (key : SeqCacheKey) : option SeqCacheItem :=
  snd <$> (snd <$> find (fun e => negb (cmp key (fst (snd e)))) (map_to_list h)).

(** For a pointer to a key of the table this is a lookup of the key itself;
    the cache also calls it on pointers whose key may have been freed, to
    find out just that. *)
Definition BLI_ghash_haskey (h : GHash) (p : ptr) : bool :=
  bool_decide (is_Some (h !! p)).

Definition BLI_ghash_insert (h : GHash) (p : ptr) (key : SeqCacheKey)
    (item : SeqCacheItem) : GHash :=
  <[p := (key, item)]> h.

Definition BLI_ghashIterator_init (h : GHash) : list ptr := (map_to_list h).*1.

(** Dereferencing a key pointer. *)
Definition key_at (h : GHash) (p : ptr) : outcome SeqCacheKey :=
  match h !! p with
  | Some e => Done (fst e)
  | None => Undefined
  end.

Definition key_at_opt (h : GHash) (p : option ptr) : outcome SeqCacheKey :=
  match p with
  | Some p => key_at h p
  | None => Undefined
  end.

Definition item_at (h : GHash) (p : ptr) : outcome SeqCacheItem :=
  match h !! p with
  | Some e => Done (snd e)
  | None => Undefined
  end.

(** Assignment to a field of the key a pointer points to. *)
Definition key_update (f : SeqCacheKey -> SeqCacheKey) (p : ptr) (h : GHash)
    : outcome GHash :=
  match h !! p with
  | Some e => Done (<[p := (f (fst e), snd e)]> h)
  | None => Undefined
  end.

(** Freeing the item of a removed entry releases the reference the cache
    holds on its image. *)
Definition seq_cache_valfree (item : SeqCacheItem) (ims : ImBufs) : ImBufs :=
  match ibuf item with
  | Some ib => IMB_freeImBuf ib ims
  | None => ims
  end.

(** [BLI_ghash_remove] with the cache's two free callbacks: the key goes
    back to its pool and the item is freed. *)
Definition BLI_ghash_remove (h : GHash) (ims : ImBufs) (p : ptr)
    : GHash * ImBufs :=
  match h !! p with
  | Some e => (delete p h, seq_cache_valfree (snd e) ims)
  | None => (h, ims)
  end.

Definition seq_cache_key_unlink (h : GHash) (p : ptr) : outcome GHash :=
  key ← key_at h p;
  h ← match link_next key with
      | Some n => key_update (set_link_prev (link_prev key)) n h
      | None => Done h
      end;
  key ← key_at h p;
  match link_prev key with
  | Some q => key_update (set_link_next (link_next key)) q h
  | None => Done h
  end.

Section Cache.

(** The state of the disk tier is left abstract. *)
Context {DiskCache : Type}.

Record SeqCache := {
  cache_bmain : ptr;
  hash : GHash;
  last_key : option ptr;
  disk_cache : option DiskCache;
}.

(** A scene that has sequencer editing data ([scene->ed] is dereferenced
    without a check throughout): [ed_cache] is [scene->ed->cache],
    [ed_cache_flag] is [scene->ed->cache_flag], [r_cfra] is [scene->r.cfra].
    Modelled from the spec: [prefetch_job] is the state of the prefetch
    subsystem, "is a prefetch job currently running for this timeline" and
    "its current [start,end] frame window". *)
Record Scene := {
  ed_cache : option SeqCache;
  ed_cache_flag : Z;
  r_cfra : Z;
  prefetch_job : option (Z * Z);
}.

Record World := {
  scenes : gmap positive Scene;
  imbufs : ImBufs;
}.

(** What the cache consumes from the rest of the program: none of these
    functions is part of the sources at hand, and the cache writes to none
    of the data they read. *)
Record Env := {
  time_start_frame_get : Strip -> float;
  time_left_handle_frame_get : Strip -> Z;
  time_right_handle_frame_get : Strip -> Z;
  give_frame_index : Strip -> float -> float;
  (* scene->r.views_format of the scene at an address *)
  scene_views_format : positive -> Z;
  seq_prefetch_original_context_get : RenderData -> RenderData;
  seq_prefetch_original_strip_get : Strip -> positive -> option Strip;
  (* U.memcachelimit and MEM_get_memory_in_use() *)
  memcachelimit : Z;
  MEM_get_memory_in_use : ImBufs -> Z;
  seq_disk_cache_is_enabled : positive -> bool;
  seq_disk_cache_create : positive -> positive -> DiskCache;
  seq_disk_cache_read_file :
    DiskCache -> SeqCacheKey -> ImBufs -> option positive * ImBufs;
  seq_disk_cache_write_file : DiskCache -> SeqCacheKey -> positive -> DiskCache;
  seq_disk_cache_enforce_limits : DiskCache -> DiskCache;
  seq_disk_cache_invalidate : DiskCache -> Strip -> Strip -> Z -> DiskCache;
}.

Variable E : Env.

(** ** Key hashing and comparison *)

(** Returns [true] when the two contexts DIFFER. *)
Definition seq_cmp_render_data (a b : RenderData) : bool :=
  negb (preview_render_size a =? preview_render_size b)
  || negb (rectx a =? rectx b)
  || negb (recty a =? recty b)
  || negb (Pos.eqb (bmain a) (bmain b))
  || negb (Pos.eqb (scene a) (scene b))
  || F32.neb (motion_blur_shutter a) (motion_blur_shutter b)
  || negb (motion_blur_samples a =? motion_blur_samples b)
  || negb (scene_views_format E (scene a) =? scene_views_format E (scene b))
  || negb (view_id a =? view_id b).

Definition seq_hash_render_data (a : RenderData) : Z :=
  let rval := u32 (rectx a + recty a) in
  let rval := u32 (Z.lxor rval (preview_render_size a)) in
  let rval := u32 (Z.lxor rval (Z.shiftl (Z.pos (bmain a)) 6)) in
  let rval := u32 (Z.lxor rval (Z.shiftl (Z.pos (scene a)) 6)) in
  let rval :=
    u32 (Z.lxor rval
           (Z.shiftl (F32.to_int (F32.mul (motion_blur_shutter a)
                                          (F32.of_int 100))) 10)) in
  let rval := u32 (Z.lxor rval (Z.shiftl (motion_blur_samples a) 16)) in
  let rval :=
    u32 (Z.lxor rval
           (Z.shiftl (scene_views_format E (scene a) * 2 + view_id a) 24)) in
  rval.

Definition seq_cache_hashhash (key : SeqCacheKey) : Z :=
  let rval := seq_hash_render_data (context key) in
  let rval := u32 (Z.lxor rval (F32.bits (frame_index key))) in
  let rval := u32 (rval + type key) in
  let rval := u32 (Z.lxor rval (Z.shiftl (Z.pos (strip_addr (strip key))) 6)) in
  rval.

(** Returns [true] when the two keys DIFFER (the convention of the table's
    comparison callback). *)
Definition seq_cache_hashcmp (a b : SeqCacheKey) : bool :=
  negb (Pos.eqb (strip_addr (strip a)) (strip_addr (strip b)))
  || F32.neb (frame_index a) (frame_index b)
  || negb (type a =? type b)
  || seq_cmp_render_data (context a) (context b).

(** ** Frame index of a key *)

Definition seq_cache_timeline_frame_to_frame_index
    (strip : Strip) (timeline_frame : float) (type : Z) : float :=
  let is_effect := nonzero (Z.land (strip_type strip) STRIP_TYPE_EFFECT) in
  if negb is_effect && (type =? SEQ_CACHE_STORE_RAW) then
    give_frame_index E strip timeline_frame
  else
    F32.sub timeline_frame (time_start_frame_get E strip).

Definition seq_cache_key_timeline_frame_get (key : SeqCacheKey) : Z :=
  F32.to_int (F32.add (frame_index key) (time_start_frame_get E (strip key))).

(** ** The cache of a scene *)

Definition set_hash (h : GHash) (c : SeqCache) : SeqCache :=
  {| cache_bmain := cache_bmain c; hash := h; last_key := last_key c;
     disk_cache := disk_cache c |}.

Definition set_last_key (k : option ptr) (c : SeqCache) : SeqCache :=
  {| cache_bmain := cache_bmain c; hash := hash c; last_key := k;
     disk_cache := disk_cache c |}.

Definition set_disk_cache (d : option DiskCache) (c : SeqCache) : SeqCache :=
  {| cache_bmain := cache_bmain c; hash := hash c; last_key := last_key c;
     disk_cache := d |}.

Definition set_ed_cache (c : option SeqCache) (sc : Scene) : Scene :=
  {| ed_cache := c; ed_cache_flag := ed_cache_flag sc; r_cfra := r_cfra sc;
     prefetch_job := prefetch_job sc |}.


Definition seq_cache_get_from_scene (sc : Scene) : option SeqCache :=
  ed_cache sc.

Definition seq_cache_get_mem_total : Z :=
  (memcachelimit E * 1024 * 1024) mod 2 ^ 64.

Definition seq_cache_is_full (ims : ImBufs) : bool :=
  seq_cache_get_mem_total <? MEM_get_memory_in_use E ims.

Definition get_stored_types_flag (sc : Scene) (key : SeqCacheKey) : Z :=
  let flag :=
    if nonzero (Z.land (strip_cache_flag (strip key)) SEQ_CACHE_OVERRIDE)
    then strip_cache_flag (strip key)
    else ed_cache_flag sc in
  (* SEQ_CACHE_STORE_FINAL_OUT can not be overridden by strip cache *)
  Z.lor flag (Z.land (ed_cache_flag sc) SEQ_CACHE_STORE_FINAL_OUT).

(** [p] is the address of [key], which the caller took from the key pool.
    The assertion that the key is not in the table yet is compiled out of a
    release build and is not modelled. *)
Definition seq_cache_put_ex (sc : Scene) (ims : ImBufs) (p : ptr)
    (key : SeqCacheKey) (ib : ptr) : outcome (Scene * ImBufs) :=
  match seq_cache_get_from_scene sc with
  | None => Undefined
  | Some cache =>
      let item := {| ibuf := Some ib |} in
      let stored_types_flag := get_stored_types_flag sc key in
      (* Item stored for later use. *)
      let key :=
        if nonzero (Z.land stored_types_flag (type key)) then
          set_link_prev (last_key cache) (set_is_temp_cache false key)
        else key in
      let h := BLI_ghash_insert (hash cache) p key item in
      let ims := IMB_refImBuf ib ims in
      (* Store pointer to last cached key. *)
      let temp_last_key := last_key cache in
      (* Set last_key's reference to this key so we can look up chain
         backwards. *)
      h ← match temp_last_key with
          | Some t =>
              if negb (is_temp_cache key)
              then key_update (set_link_next (Some p)) t h
              else Done h
          | None => Done h
          end;
      (* Reset linking. *)
      let last :=
        if type key =? SEQ_CACHE_STORE_FINAL_OUT then None else Some p in
      Done (set_ed_cache (Some (set_last_key last (set_hash h cache))) sc, ims)
  end.

Definition seq_cache_get_ex (cache : SeqCache) (key : SeqCacheKey)
    (ims : ImBufs) : option ptr * ImBufs :=
  match BLI_ghash_lookup seq_cache_hashcmp (hash cache) key with
  | Some item =>
      match ibuf item with
      | Some ib => (Some ib, IMB_refImBuf ib ims)
      | None => (None, ims)
      end
  | None => (None, ims)
  end.

(** ** Recycling *)

Definition seq_prefetch_job_is_running (sc : Scene) : bool :=
  bool_decide (is_Some (prefetch_job sc)).

Definition seq_prefetch_get_time_range (sc : Scene) : Z * Z :=
  default (0, 0) (prefetch_job sc).

Definition outside (frame pfjob_start pfjob_end : Z) : bool :=
  (frame <? pfjob_start) || (frame >? pfjob_end).

(** The branch of [seq_cache_choose_key] taken when no prefetch job holds
    the cache: the candidate farther from the current frame.  The two
    pointers are swapped when out of order, the two frames read on entry
    are not. *)
Definition choose_by_distance (sc : Scene) (lkey rkey : option ptr)
    (lkey_tml_frame rkey_tml_frame : Z) : outcome (option ptr) :=
  match rkey, lkey with
  | Some _, Some _ =>
      let '(lkey, rkey) :=
        if lkey_tml_frame >? rkey_tml_frame then (rkey, lkey)
        else (lkey, rkey) in
      let l_diff := r_cfra sc - lkey_tml_frame in
      let r_diff := rkey_tml_frame - r_cfra sc in
      if l_diff >? r_diff then Done lkey else Done rkey
  | _, _ =>
      match lkey with
      | Some _ => Done lkey
      | None => Done rkey
      end
  end.

(** Choose a key out of 2 candidates (leftmost and rightmost items) to
    recycle.  The timeline frames of both candidates are read on entry,
    before either pointer is tested. *)
Definition seq_cache_choose_key (sc : Scene) (h : GHash)
    (lkey rkey : option ptr) : outcome (option ptr) :=
  kl ← key_at_opt h lkey;
  kr ← key_at_opt h rkey;
  let lkey_tml_frame := seq_cache_key_timeline_frame_get kl in
  let rkey_tml_frame := seq_cache_key_timeline_frame_get kr in
  if nonzero (Z.land (ed_cache_flag sc) SEQ_CACHE_PREFETCH_ENABLE)
     && seq_prefetch_job_is_running sc then
    let '(pfjob_start, pfjob_end) := seq_prefetch_get_time_range sc in
    if bool_decide (is_Some lkey)
       && outside lkey_tml_frame pfjob_start pfjob_end then Done lkey
    else if bool_decide (is_Some rkey)
            && outside rkey_tml_frame pfjob_start pfjob_end then Done rkey
    else Done None
  else
    choose_by_distance sc lkey rkey lkey_tml_frame rkey_tml_frame.

(** The two loops of [seq_cache_recycle_linked]: from [base] backward along
    [link_prev], then from the key that followed it forward along
    [link_next]. *)
Fixpoint recycle_linked_prev (fuel : nat) (h : GHash) (ims : ImBufs)
    (base : option ptr) : outcome (GHash * ImBufs) :=
  match base with
  | None => Done (h, ims)
  | Some b =>
      match fuel with
      | O => Timeout
      | S fuel =>
          if negb (BLI_ghash_haskey h b) then
            Done (h, ims) (* Key has already been removed from cache. *)
          else
            key ← key_at h b;
            let prev := link_prev key in
            detached ←
              match prev with
              | Some q =>
                  kq ← key_at h q;
                  Done (negb (bool_decide (link_next kq = Some b)))
              | None => Done false
              end;
            if (detached : bool) then
              (* Key has been removed and replaced and doesn't belong to
                 this chain anymore. *)
              h ← key_update (set_link_prev None) b h;
              Done (h, ims)
            else
              h ← seq_cache_key_unlink h b;
              let '(h, ims) := BLI_ghash_remove h ims b in
              recycle_linked_prev fuel h ims prev
      end
  end.

Fixpoint recycle_linked_next (fuel : nat) (h : GHash) (ims : ImBufs)
    (base : option ptr) : outcome (GHash * ImBufs) :=
  match base with
  | None => Done (h, ims)
  | Some b =>
      match fuel with
      | O => Timeout
      | S fuel =>
          if negb (BLI_ghash_haskey h b) then
            Done (h, ims) (* Key has already been removed from cache. *)
          else
            key ← key_at h b;
            let next := link_next key in
            detached ←
              match next with
              | Some q =>
                  kq ← key_at h q;
                  Done (negb (bool_decide (link_prev kq = Some b)))
              | None => Done false
              end;
            if (detached : bool) then
              h ← key_update (set_link_next None) b h;
              Done (h, ims)
            else
              h ← seq_cache_key_unlink h b;
              let '(h, ims) := BLI_ghash_remove h ims b in
              recycle_linked_next fuel h ims next
      end
  end.

Definition seq_cache_recycle_linked (fuel : nat) (sc : Scene) (ims : ImBufs)
    (base : ptr) : outcome (Scene * ImBufs) :=
  match seq_cache_get_from_scene sc with
  | None => Done (sc, ims)
  | Some cache =>
      key ← key_at (hash cache) base;
      let next := link_next key in
      '(h, ims) ← recycle_linked_prev fuel (hash cache) ims (Some base);
      '(h, ims) ← recycle_linked_next fuel h ims next;
      Done (set_ed_cache (Some (set_hash h cache)) sc, ims)
  end.

(** [key] replaces the candidate [cur] when there is none yet or when its
    timeline frame is beyond it in the direction [better]. *)
Definition update_candidate (better : Z -> Z -> bool) (h : GHash)
    (p : ptr) (key : SeqCacheKey) (cur : option ptr) : outcome (option ptr) :=
  match cur with
  | Some c =>
      kc ← key_at h c;
      if better (seq_cache_key_timeline_frame_get key)
                (seq_cache_key_timeline_frame_get kc)
      then Done (Some p) else Done cur
  | None => Done (Some p)
  end.

(** The scan of [seq_cache_get_item_for_removal]; [it] is what the iterator
    still has to visit.  Every step of the loop takes one unit of fuel. *)
Fixpoint get_item_scan (fuel : nat) (sc : Scene) (ims : ImBufs)
    (it : list ptr) (lkey rkey : option ptr)
    : outcome (option ptr * option ptr * Scene * ImBufs) :=
  match it with
  | [] => Done (lkey, rkey, sc, ims)
  | p :: it =>
      match fuel with
      | O => Timeout
      | S fuel =>
          match seq_cache_get_from_scene sc with
          | None => Undefined
          | Some cache =>
              key ← key_at (hash cache) p;
              item ← item_at (hash cache) p;
              match ibuf item with
              | None =>
                  (* This shouldn't happen, but better be safe than sorry. *)
                  '(sc, ims) ← seq_cache_recycle_linked fuel sc ims p;
                  (* Can not continue iterating after linked remove. *)
                  match seq_cache_get_from_scene sc with
                  | None => Undefined
                  | Some cache =>
                      get_item_scan fuel sc ims
                        (BLI_ghashIterator_init (hash cache)) lkey rkey
                  end
              | Some _ =>
                  if is_temp_cache key || bool_decide (is_Some (link_next key))
                  then get_item_scan fuel sc ims it lkey rkey
                  else
                    lkey ← update_candidate Z.ltb (hash cache) p key lkey;
                    rkey ← update_candidate Z.gtb (hash cache) p key rkey;
                    get_item_scan fuel sc ims it lkey rkey
              end
          end
      end
  end.

Definition seq_cache_get_item_for_removal (fuel : nat) (sc : Scene)
    (ims : ImBufs) : outcome (option ptr * Scene * ImBufs) :=
  match seq_cache_get_from_scene sc with
  | None => Undefined
  | Some cache =>
      '(lkey, rkey, sc, ims) ←
        get_item_scan fuel sc ims (BLI_ghashIterator_init (hash cache))
                      None None;
      match seq_cache_get_from_scene sc with
      | None => Undefined
      | Some cache =>
          finalkey ← seq_cache_choose_key sc (hash cache) lkey rkey;
          Done (finalkey, sc, ims)
      end
  end.

Fixpoint recycle_item_loop (fuel : nat) (sc : Scene) (ims : ImBufs)
    : outcome (bool * Scene * ImBufs) :=
  if negb (seq_cache_is_full ims) then Done (true, sc, ims)
  else
    match fuel with
    | O => Timeout
    | S fuel =>
        '(finalkey, sc, ims) ← seq_cache_get_item_for_removal fuel sc ims;
        match finalkey with
        | Some k =>
            '(sc, ims) ← seq_cache_recycle_linked fuel sc ims k;
            recycle_item_loop fuel sc ims
        | None => Done (false, sc, ims)
        end
    end.

Definition seq_cache_recycle_item (fuel : nat) (sc : Scene) (ims : ImBufs)
    : outcome (bool * Scene * ImBufs) :=
  match seq_cache_get_from_scene sc with
  | None => Done (false, sc, ims)
  | Some _ => recycle_item_loop fuel sc ims
  end.

(** The two loops of [seq_cache_set_temp_cache_linked]. *)
Fixpoint set_temp_prev (fuel : nat) (h : GHash) (base : option ptr)
    : outcome GHash :=
  match base with
  | None => Done h
  | Some b =>
      match fuel with
      | O => Timeout
      | S fuel =>
          key ← key_at h b;
          let prev := link_prev key in
          h ← key_update (set_is_temp_cache true) b h;
          set_temp_prev fuel h prev
      end
  end.

Fixpoint set_temp_next (fuel : nat) (h : GHash) (base : option ptr)
    : outcome GHash :=
  match base with
  | None => Done h
  | Some b =>
      match fuel with
      | O => Timeout
      | S fuel =>
          key ← key_at h b;
          let next := link_next key in
          h ← key_update (set_is_temp_cache true) b h;
          set_temp_next fuel h next
      end
  end.

Definition seq_cache_set_temp_cache_linked (fuel : nat) (sc : Scene)
    (base : option ptr) : outcome Scene :=
  match seq_cache_get_from_scene sc, base with
  | Some cache, Some b =>
      key ← key_at (hash cache) b;
      let next := link_next key in
      h ← set_temp_prev fuel (hash cache) (Some b);
      h ← set_temp_next fuel h next;
      Done (set_ed_cache (Some (set_hash h cache)) sc)
  | _, _ => Done sc
  end.

(** ** Creation and keys *)

(** The time stamp of the disk cache, taken from the clock on creation, is
    left out. *)
Definition seq_cache_create (bmain : ptr) (sc : Scene) : Scene :=
  match ed_cache sc with
  | None =>
      set_ed_cache
        (Some {| cache_bmain := bmain; hash := ∅; last_key := None;
                 disk_cache := None |}) sc
  | Some _ => sc
  end.

Definition seq_cache_populate_key (context : RenderData) (strip : Strip)
    (timeline_frame : float) (type : Z) : SeqCacheKey :=
  {| strip := strip;
     context := context;
     frame_index :=
       seq_cache_timeline_frame_to_frame_index strip timeline_frame type;
     type := type;
     link_prev := None;
     link_next := None;
     is_temp_cache := true;
     task_id := context_task_id context |}.

(** The address of the new key is the pool's choice, see [seq_cache_put]. *)
Definition seq_cache_allocate_key (context : RenderData) (strip : Strip)
    (timeline_frame : float) (type : Z) : SeqCacheKey :=
  seq_cache_populate_key context strip timeline_frame type.

(** ** API *)

(** One step of a loop that visits the keys of the table and removes those
    that satisfy [doomed]. *)
Definition remove_if (doomed : SeqCacheKey -> bool) (reset_last : bool)
    (p : ptr) (st : SeqCache * ImBufs) : outcome (SeqCache * ImBufs) :=
  let '(cache, ims) := st in
  key ← key_at (hash cache) p;
  if doomed key then
    h ← seq_cache_key_unlink (hash cache) p;
    let '(h, ims) := BLI_ghash_remove h ims p in
    let cache := set_hash h cache in
    if reset_last && bool_decide (last_key cache = Some p)
    then Done (set_last_key None cache, ims)
    else Done (cache, ims)
  else Done (cache, ims).

Fixpoint remove_loop (doomed : SeqCacheKey -> bool) (reset_last : bool)
    (it : list ptr) (st : SeqCache * ImBufs) : outcome (SeqCache * ImBufs) :=
  match it with
  | [] => Done st
  | p :: it =>
      st ← remove_if doomed reset_last p st;
      remove_loop doomed reset_last it st
  end.

Definition free_temp_cache_doomed (id timeline_frame : Z)
    (key : SeqCacheKey) : bool :=
  is_temp_cache key && (task_id key =? id)
  && (* Use frame_index here to avoid freeing raw images if they are used
        for multiple frames. *)
     (let fi :=
        seq_cache_timeline_frame_to_frame_index
          (strip key) (F32.of_int timeline_frame) (type key) in
      F32.neb fi (frame_index key)
      || (timeline_frame >? time_right_handle_frame_get E (strip key))
      || (timeline_frame <? time_left_handle_frame_get E (strip key))).

Definition seq_cache_free_temp_cache (sc : Scene) (ims : ImBufs)
    (id timeline_frame : Z) : outcome (Scene * ImBufs) :=
  match seq_cache_get_from_scene sc with
  | None => Done (sc, ims)
  | Some cache =>
      '(cache, ims) ←
        remove_loop (free_temp_cache_doomed id timeline_frame) true
          (BLI_ghashIterator_init (hash cache)) (cache, ims);
      Done (set_ed_cache (Some cache) sc, ims)
  end.

(** Freeing every item of the table. *)
Definition free_all_items (h : GHash) (ims : ImBufs) : ImBufs :=
  foldr (fun e ims => seq_cache_valfree (snd (snd e)) ims) ims (map_to_list h).

Definition seq_cache_destruct (sc : Scene) (ims : ImBufs) : Scene * ImBufs :=
  match seq_cache_get_from_scene sc with
  | None => (sc, ims)
  | Some cache => (set_ed_cache None sc, free_all_items (hash cache) ims)
  end.



Definition max_ii (a b : Z) : Z := if a <? b then b else a.
Definition min_ii (a b : Z) : Z := if a <? b then a else b.

(** The test [seq_cache_cleanup_strip] applies to every key of the table. *)
Definition cleanup_strip_doomed (strip_ strip_changed : Strip)
    (invalidate_types : Z) (force_strip_changed_range : bool)
    (key : SeqCacheKey) : bool :=
  let range_start_strip_changed :=
    time_left_handle_frame_get E strip_changed in
  let range_end_strip_changed :=
    time_right_handle_frame_get E strip_changed in
  let range_start :=
    if force_strip_changed_range then range_start_strip_changed
    else max_ii range_start_strip_changed
                (time_left_handle_frame_get E strip_) in
  let range_end :=
    if force_strip_changed_range then range_end_strip_changed
    else min_ii range_end_strip_changed
                (time_right_handle_frame_get E strip_) in
  let invalidate_composite :=
    Z.land invalidate_types SEQ_CACHE_STORE_FINAL_OUT in
  let invalidate_source :=
    Z.land invalidate_types
      (Z.lor (Z.lor SEQ_CACHE_STORE_RAW SEQ_CACHE_STORE_PREPROCESSED)
             SEQ_CACHE_STORE_COMPOSITE) in
  let key_timeline_frame := seq_cache_key_timeline_frame_get key in
  (* Clean all final and composite in intersection of strip and
     strip_changed. *)
  if nonzero (Z.land (type key) invalidate_composite)
     && (key_timeline_frame >=? range_start)
     && (key_timeline_frame <=? range_end)
  then true
  else
    nonzero (Z.land (type key) invalidate_source)
    && Pos.eqb (strip_addr (strip key)) (strip_addr strip_)
    && (key_timeline_frame >=? time_left_handle_frame_get E strip_changed)
    && (key_timeline_frame <=? time_right_handle_frame_get E strip_changed).

Definition seq_cache_cleanup_strip (sc : Scene) (ims : ImBufs)
    (strip strip_changed : Strip) (invalidate_types : Z)
    (force_strip_changed_range : bool) : outcome (Scene * ImBufs) :=
  match seq_cache_get_from_scene sc with
  | None => Done (sc, ims)
  | Some cache =>
      let cache :=
        match disk_cache cache with
        | Some d =>
            if seq_disk_cache_is_enabled E (cache_bmain cache) then
              set_disk_cache
                (Some (seq_disk_cache_invalidate E d strip strip_changed
                         invalidate_types)) cache
            else cache
        | None => cache
        end in
      '(cache, ims) ←
        remove_loop
          (cleanup_strip_doomed strip strip_changed invalidate_types
             force_strip_changed_range) false
          (BLI_ghashIterator_init (hash cache)) (cache, ims);
      Done (set_ed_cache (Some (set_last_key None cache)) sc, ims)
  end.

Definition scene_at (w : World) (sp : ptr) : outcome Scene :=
  match scenes w !! sp with
  | Some sc => Done sc
  | None => Undefined
  end.

Definition store_scene (sp : ptr) (sc : Scene) (ims : ImBufs) (w : World)
    : World :=
  {| scenes := <[sp := sc]> (scenes w); imbufs := ims |}.

(** Redirection of a prefetch render to the context and the strip it was
    started from.  A null strip stays null. *)
Definition prefetch_redirect (context : RenderData) (strip : option Strip)
    : RenderData * option Strip :=
  if is_prefetch_render context then
    let context := seq_prefetch_original_context_get E context in
    (context,
     strip ≫= fun s => seq_prefetch_original_strip_get E s (scene context))
  else (context, strip).

(** The second half of [seq_cache_get], reached when the RAM cache missed
    and the fetch is not for a render: the disk tier.  [ims] are the image
    buffers and [sc], [cache], [key] the scene, its cache and the key the
    first half looked up. *)
Definition seq_cache_get_disk (fuel : nat) (w : World) (context : RenderData)
    (strip : Strip) (timeline_frame : float) (type : Z) (p : ptr)
    (sc : Scene) (cache : SeqCache) (key : SeqCacheKey) (ims : ImBufs)
    : outcome (option ptr * World) :=
  if seq_disk_cache_is_enabled E (bmain context) then
    let d :=
      match disk_cache cache with
      | Some d => d
      | None => seq_disk_cache_create E (bmain context) (scene context)
      end in
    let cache := set_disk_cache (Some d) cache in
    let sc := set_ed_cache (Some cache) sc in
    let '(ibuf, ims) := seq_disk_cache_read_file E d key ims in
    match ibuf with
    | None => Done (None, store_scene (scene context) sc ims w)
    | Some ib =>
        (* Store read image in RAM. Only recycle item for final type. *)
        '(ok, sc, ims) ←
          (if negb (type =? SEQ_CACHE_STORE_FINAL_OUT)
           then Done (true, sc, ims)
           else seq_cache_recycle_item fuel sc ims);
        if (ok : bool) then
          let new_key :=
            seq_cache_allocate_key context strip timeline_frame type in
          '(sc, ims) ← seq_cache_put_ex sc ims p new_key ib;
          Done (Some ib, store_scene (scene context) sc ims w)
        else
          Done (Some ib, store_scene (scene context) sc ims w)
    end
  else Done (None, store_scene (scene context) sc ims w).

(** [p] is the address the key pool hands out if the call allocates a key
    (it allocates one at most). *)
Definition seq_cache_get (fuel : nat) (w : World) (context : RenderData)
    (strip : option Strip) (timeline_frame : float) (type : Z) (p : ptr)
    : outcome (option ptr * World) :=
  if skip_cache context || is_proxy_render context
     || negb (bool_decide (is_Some strip))
  then Done (None, w)
  else
    let '(context, strip) := prefetch_redirect context strip in
    match strip with
    | None => Done (None, w)
    | Some strip =>
        sc ← scene_at w (scene context);
        let sc := seq_cache_create (bmain context) sc in
        match seq_cache_get_from_scene sc with
        | None => Undefined
        | Some cache =>
            (* Try RAM cache: *)
            let key :=
              seq_cache_populate_key context strip timeline_frame type in
            let '(ibuf, ims) := seq_cache_get_ex cache key (imbufs w) in
            match ibuf with
            | Some ib => Done (Some ib, store_scene (scene context) sc ims w)
            | None =>
                if for_render context
                then Done (None, store_scene (scene context) sc ims w)
                else
                  seq_cache_get_disk fuel w context strip timeline_frame
                                     type p sc cache key ims
            end
        end
    end.

(** The second half of [seq_cache_put], reached when the key is not cached
    yet: the insertion. *)
Definition seq_cache_put_new (w : World) (context : RenderData)
    (strip : option Strip) (timeline_frame : float) (type : Z) (i : ptr)
    (p : ptr) : outcome World :=
  sc ← scene_at w (scene context);
  let sc := seq_cache_create (bmain context) sc in
  match strip with
  | None => Undefined
  | Some strip =>
      let key := seq_cache_allocate_key context strip timeline_frame type in
      '(sc, ims) ← seq_cache_put_ex sc (imbufs w) p key i;
      match seq_cache_get_from_scene sc with
      | None => Undefined
      | Some cache =>
          h ← (if for_render context
               then key_update (set_is_temp_cache true) p (hash cache)
               else Done (hash cache));
          let cache := set_hash h cache in
          key ← key_at h p;
          if negb (is_temp_cache key)
             && seq_disk_cache_is_enabled E (bmain context)
          then
            (* A disk cache created here is not stored in the cache; the
               file is written through cache->disk_cache. *)
            match disk_cache cache with
            | None => Undefined
            | Some d =>
                let d := seq_disk_cache_write_file E d key i in
                let d := seq_disk_cache_enforce_limits E d in
                Done (store_scene (scene context)
                        (set_ed_cache
                           (Some (set_disk_cache (Some d) cache)) sc)
                        ims w)
            end
          else
            Done (store_scene (scene context)
                    (set_ed_cache (Some cache) sc) ims w)
      end
  end.

Definition seq_cache_put (fuel : nat) (w : World) (context : RenderData)
    (strip : option Strip) (timeline_frame : float) (type : Z)
    (i : option ptr) (p : ptr) : outcome World :=
  match i with
  | None => Done w
  | Some i =>
      if skip_cache context || is_proxy_render context
         || negb (bool_decide (is_Some strip))
      then Done w
      else
        let '(context, strip) := prefetch_redirect context strip in
        (* Prevent reinserting, it breaks cache key linking. *)
        '(test, w) ← seq_cache_get fuel w context strip timeline_frame type p;
        match test with
        | Some test =>
            Done {| scenes := scenes w;
                    imbufs := IMB_freeImBuf test (imbufs w) |}
        | None =>
            seq_cache_put_new w context strip timeline_frame type i p
        end
  end.

Definition seq_cache_put_if_possible (fuel : nat) (w : World)
    (context : RenderData) (strip : option Strip) (timeline_frame : float)
    (type : Z) (ibuf : option ptr) (p : ptr) : outcome (bool * World) :=
  let '(context, strip) := prefetch_redirect context strip in
  match strip with
  | None => Done (false, w)
  | Some _ =>
      sc ← scene_at w (scene context);
      '(ok, sc, ims) ← seq_cache_recycle_item fuel sc (imbufs w);
      let w := store_scene (scene context) sc ims w in
      if (ok : bool) then
        w ← seq_cache_put fuel w context strip timeline_frame type ibuf p;
        Done (true, w)
      else
        match ed_cache sc with
        | Some cache =>
            sc ← seq_cache_set_temp_cache_linked fuel sc (last_key cache);
            match ed_cache sc with
            | Some cache =>
                Done (false,
                      store_scene (scene context)
                        (set_ed_cache (Some (set_last_key None cache)) sc)
                        ims w)
            | None => Undefined
            end
        | None => Done (false, w)
        end
  end.

(** The callbacks of [cache_iterate] run on the caller's [userdata]; they
    are given as functions from its state to the flag they return and its
    new state. *)
Section Iterate.
Context {U : Type}.
Variable callback_init : U -> nat -> bool * U.
Variable callback_iter : U -> Strip -> Z -> Z -> bool * U.

Fixpoint iterate_loop (h : GHash) (it : list ptr) (interrupt : bool)
    (userdata : U) : outcome U :=
  match it with
  | [] => Done userdata
  | p :: it =>
      if interrupt then Done userdata
      else
        key ← key_at h p;
        let timeline_frame :=
          if nonzero (Z.land (type key) SEQ_CACHE_STORE_FINAL_OUT)
          then seq_cache_key_timeline_frame_get key
          else F32.to_int (F32.add (frame_index key)
                                   (time_start_frame_get E (strip key))) in
        let '(interrupt, userdata) :=
          callback_iter userdata (strip key) timeline_frame (type key) in
        iterate_loop h it interrupt userdata
  end.

Definition cache_iterate (sc : Scene) (userdata : U) : outcome (Scene * U) :=
  match seq_cache_get_from_scene sc with
  | None => Done (sc, userdata)
  | Some cache =>
      let '(interrupt, userdata) :=
        callback_init userdata (size (hash cache)) in
      userdata ←
        iterate_loop (hash cache) (BLI_ghashIterator_init (hash cache))
                     interrupt userdata;
      Done (set_ed_cache (Some (set_last_key None cache)) sc, userdata)
  end.
End Iterate.

End Cache.

(** * Properties *)

(** ** Linked keys

    The links of a table are consistent when every link points to a key of
    the table that points back. *)
Definition key_of (h : GHash) (p : positive) : option SeqCacheKey := fst <$> h !! p.

Definition links_ok (h : GHash) : Prop :=
  ∀ p k, key_of h p = Some k →
    (∀ n, link_next k = Some n → ∃ kn, key_of h n = Some kn ∧ link_prev kn = Some p) ∧
    (∀ q, link_prev k = Some q → ∃ kq, key_of h q = Some kq ∧ link_next kq = Some p).


Definition on_key (f : SeqCacheKey → SeqCacheKey) (e : SeqCacheKey * SeqCacheItem) := (f e.1, e.2).

Definition alter_at (p : option positive) (f : SeqCacheKey → SeqCacheKey)
  (h : GHash) :=
  match p with Some p => alter (on_key f) p h | None => h end.

Lemma key_at_Done h p k : key_at h p = Done k ↔ key_of h p = Some k.
Proof.
  unfold key_at, key_of. destruct (h !! p) as [e|]; simpl; split; intros H; inversion H; done.
Qed.

Lemma key_update_alter f p h :
  is_Some (h !! p) → key_update f p h = Done (alter (on_key f) p h).
Proof.
  intros [e H]. unfold key_update. rewrite H. f_equal.
  apply map_eq. intros x. destruct (decide (p = x)) as [->|].
  - by rewrite lookup_insert_eq, lookup_alter_eq, H.
  - by rewrite lookup_insert_ne, lookup_alter_ne.
Qed.

Lemma key_update_Done' f p h e :
  h !! p = Some e → key_update f p h = Done (<[p := (f e.1, e.2)]> h).
Proof. intros H. unfold key_update. by rewrite H. Qed.


Lemma set_link_next_eta k : set_link_next (link_next k) k = k.
Proof. by destruct k. Qed.






(** Everything of a key but its two links. *)
Definition unlinked (k : SeqCacheKey) : SeqCacheKey :=
  set_link_prev None (set_link_next None k).

(** [h'] holds some of the entries of [h], with the same keys up to links. *)
Definition sub_table (h' h : GHash) : Prop :=
  ∀ x e', h' !! x = Some e' →
    ∃ e, h !! x = Some e ∧ unlinked e.1 = unlinked e'.1 ∧ e.2 = e'.2.



Lemma lookup_alter_at p f h x :
  alter_at p f h !! x = if decide (p = Some x) then on_key f <$> h !! x else h !! x.
Proof.
  destruct p as [p|]; simpl.
  - destruct (decide (p = x)) as [->|].
    + rewrite lookup_alter_eq. by case_decide.
    + rewrite lookup_alter_ne by done. case_decide; congruence.
  - done.
Qed.


Lemma size_alter_at p f h : size (alter_at p f h) = size h.
Proof.
  destruct p; simpl; [|done]. by rewrite <-!size_dom, dom_alter_L.
Qed.





(** ** Comparison of floats *)

Lemma F32_eqb_spec (x y : float) :
  F32.eqb x y = true →
  x = y ∨ ∃ s s', x = S754_zero s ∧ y = S754_zero s'.
Proof.
  unfold F32.eqb, SFeqb, SFcompare.
  destruct x as [sx|sx| |sx mx ex], y as [sy|sy| |sy my ey];
    intros H; try discriminate H; eauto;
    try (destruct sx; discriminate H); try (destruct sy; discriminate H).
  - destruct sx, sy; try discriminate H; eauto.
  - destruct sx, sy; try discriminate H;
      destruct (Z.compare ex ey) eqn:He; try discriminate H;
      destruct (Pos.compare_cont Eq mx my) eqn:Hm; try discriminate H;
      left; apply Z.compare_eq in He; apply Pos.compare_eq in Hm;
      by subst.
Qed.

Lemma F32_eqb_sym (x y : float) : F32.eqb x y = true → F32.eqb y x = true.
Proof.
  intros H. pose proof H as H'.
  apply F32_eqb_spec in H as [->|(s & s' & -> & ->)]; done.
Qed.

Lemma F32_eqb_trans (x y z : float) :
  F32.eqb x y = true → F32.eqb y z = true → F32.eqb x z = true.
Proof.
  intros Hxy Hyz. pose proof Hxy as H1. pose proof Hyz as H2.
  apply F32_eqb_spec in H1 as [->|(s & s' & -> & ->)]; [done|].
  apply F32_eqb_spec in H2 as [<-|(t & t' & _ & ->)]; done.
Qed.

(** ** Insertion *)

Section Properties.
Context {DiskCache : Type} (E : @Env DiskCache).
Implicit Types (sc : @Scene DiskCache) (c : @SeqCache DiskCache).
Implicit Types (h : GHash) (ims : ImBufs) (p : positive) (key : SeqCacheKey).

(** A key as [seq_cache_populate_key] leaves it. *)
Definition fresh_key key : Prop :=
  link_prev key = None ∧ link_next key = None ∧ is_temp_cache key = true.

(** The stage of the key is among the stored types of its strip or scene. *)
Definition stored sc key : bool :=
  nonzero (Z.land (get_stored_types_flag sc key) (type key)).

(** The chain tail, when there is one, is a key of the table. *)
Definition tail_live c : Prop :=
  ∀ t, last_key c = Some t → is_Some (hash c !! t).

(** ... and nothing follows it. *)
Definition tail_ok c : Prop :=
  ∀ t, last_key c = Some t →
    ∃ kt, key_of (hash c) t = Some kt ∧ link_next kt = None.

Lemma tail_ok_live c : tail_ok c → tail_live c.
Proof.
  intros H t Ht. destruct (H t Ht) as (kt & Hk & _).
  unfold key_of in Hk. destruct (hash c !! t); [eauto|done].
Qed.

Lemma populate_key_fresh context s timeline_frame ty :
  fresh_key (seq_cache_populate_key E context s timeline_frame ty).
Proof. done. Qed.

(** The table [seq_cache_put_ex] leaves. *)
Definition put_ex_hash sc c p key (ib : positive) : GHash :=
  let key' :=
    if stored sc key
    then set_link_prev (last_key c) (set_is_temp_cache false key)
    else key in
  let h := <[p := (key', {| ibuf := Some ib |})]> (hash c) in
  if is_temp_cache key' then h
  else alter_at (last_key c) (set_link_next (Some p)) h.

Definition put_ex_cache sc c p key (ib : positive) : SeqCache :=
  set_last_key
    (if type key =? SEQ_CACHE_STORE_FINAL_OUT then None else Some p)
    (set_hash (put_ex_hash sc c p key ib) c).

Lemma put_ex_Done sc c ims p key ib :
  ed_cache sc = Some c → tail_live c →
  seq_cache_put_ex sc ims p key ib =
    Done (set_ed_cache (Some (put_ex_cache sc c p key ib)) sc,
          IMB_refImBuf ib ims).
Proof.
  intros Hc Hlive. unfold seq_cache_put_ex, seq_cache_get_from_scene.
  rewrite Hc. unfold put_ex_cache, put_ex_hash, stored, BLI_ghash_insert.
  set (key' := if nonzero _ then _ else key).
  assert (Hty : type key' = type key).
  { unfold key'. by destruct (nonzero _). }
  rewrite Hty.
  destruct (last_key c) as [t|] eqn:Et; simpl.
  - destruct (is_temp_cache key'); simpl; [done|].
    rewrite key_update_alter; [done|].
    destruct (decide (p = t)) as [->|].
    + rewrite lookup_insert_eq. eauto.
    + rewrite lookup_insert_ne by done. by apply Hlive.
  - by destruct (is_temp_cache key').
Qed.

(** What an insertion does to the table, entry by entry. *)
Lemma put_ex_hash_new sc c p key ib :
  hash c !! p = None → tail_live c → fresh_key key →
  put_ex_hash sc c p key ib !! p =
    Some (if stored sc key
          then set_link_prev (last_key c) (set_is_temp_cache false key)
          else key,
          {| ibuf := Some ib |}).
Proof.
  intros Hp Hlive (_ & _ & Htemp). unfold put_ex_hash.
  destruct (stored sc key); simpl.
  - rewrite lookup_alter_at. case_decide as Hl.
    + apply Hlive in Hl. rewrite Hp in Hl. by destruct Hl.
    + by rewrite lookup_insert_eq.
  - rewrite Htemp. by rewrite lookup_insert_eq.
Qed.

Lemma put_ex_hash_old sc c p key ib x :
  x ≠ p → fresh_key key →
  put_ex_hash sc c p key ib !! x =
    if stored sc key && bool_decide (last_key c = Some x)
    then on_key (set_link_next (Some p)) <$> hash c !! x
    else hash c !! x.
Proof.
  intros Hx (_ & _ & Htemp). unfold put_ex_hash.
  destruct (stored sc key); simpl.
  - rewrite lookup_alter_at. rewrite lookup_insert_ne by done.
    case_decide; case_bool_decide; done.
  - rewrite Htemp. by rewrite lookup_insert_ne.
Qed.

Lemma put_ex_links_ok sc c p key ib :
  hash c !! p = None → fresh_key key →
  links_ok (hash c) → tail_ok c →
  links_ok (hash (put_ex_cache sc c p key ib))
  ∧ tail_ok (put_ex_cache sc c p key ib).
Proof.
  intros Hp Hfresh Hok Htail.
  pose proof (tail_ok_live c Htail) as Hlive.
  assert (Hkey : ∀ x, key_of (put_ex_hash sc c p key ib) x =
    if decide (x = p) then
      Some (if stored sc key
            then set_link_prev (last_key c) (set_is_temp_cache false key)
            else key)
    else if stored sc key && bool_decide (last_key c = Some x)
         then set_link_next (Some p) <$> key_of (hash c) x
         else key_of (hash c) x).
  { intros x. unfold key_of. case_decide as Hx.
    - subst. by rewrite put_ex_hash_new.
    - rewrite put_ex_hash_old by done.
      destruct (_ && _); [|done]. by destruct (hash c !! x). }
  assert (Hnp : key_of (hash c) p = None) by (unfold key_of; by rewrite Hp).
  destruct Hfresh as (Hfp & Hfn & Hft).
  split.
  - intros x k. simpl. rewrite Hkey. case_decide as Hx.
    + subst x. intros [= <-]. destruct (stored sc key) eqn:Est; simpl.
      * split; [by rewrite Hfn|].
        intros q Hq. destruct (Htail q Hq) as (kq & Hkq & _).
        assert (q ≠ p) by (intros ->; congruence).
        exists (set_link_next (Some p) kq). rewrite Hkey, decide_False by done.
        rewrite bool_decide_eq_true_2 by done. simpl. by rewrite Hkq.
      * split; intros ?; congruence.
    + intros Hk.
      destruct (key_of (hash c) x) as [kx|] eqn:Hkx;
        [|by destruct (_ && _)].
      destruct (Hok x kx Hkx) as [Hxn Hxq].
      assert (Hother : ∀ y ky, key_of (hash c) y = Some ky →
        ∃ ky', key_of (put_ex_hash sc c p key ib) y = Some ky'
          ∧ link_prev ky' = link_prev ky
          ∧ (last_key c ≠ Some y → link_next ky' = link_next ky)).
      { intros y ky Hky. assert (y ≠ p) by (intros ->; congruence).
        rewrite Hkey, decide_False by done. rewrite Hky.
        destruct (stored sc key && bool_decide (last_key c = Some y)) eqn:Eb;
          simpl; eexists; (split; [reflexivity|]); simpl; [|done].
        split; [done|]. intros Hne. apply andb_true_iff in Eb as [_ Eb].
        by apply bool_decide_eq_true in Eb. }
      destruct (stored sc key && bool_decide (last_key c = Some x)) eqn:Eb;
        simpl in Hk; simplify_eq.
      * apply andb_true_iff in Eb as [Est Eb].
        apply bool_decide_eq_true in Eb.
        destruct (Htail x Eb) as (kt & Hkt & Hnone). simplify_eq.
        split.
        -- simpl. intros n [= <-]. eexists. rewrite Hkey, decide_True by done.
           split; [done|]. rewrite Est. simpl. done.
        -- simpl. intros q Hq. destruct (Hxq q Hq) as (kq & Hkq & Hqn).
           destruct (Hother q kq Hkq) as (kq' & Hkq' & _ & Hn').
           exists kq'. split; [done|]. rewrite Hn'; [done|].
           intros Hl. destruct (Htail q Hl) as (k' & ? & ?). congruence.
      * split.
        -- intros n Hn. destruct (Hxn n Hn) as (kn & Hkn & Hnp').
           destruct (Hother n kn Hkn) as (kn' & Hkn' & Hp' & _).
           exists kn'. split; [done|]. congruence.
        -- intros q Hq. destruct (Hxq q Hq) as (kq & Hkq & Hqn).
           destruct (Hother q kq Hkq) as (kq' & Hkq' & _ & Hn').
           exists kq'. split; [done|]. rewrite Hn'; [done|].
           intros Hl. destruct (Htail q Hl) as (k' & ? & ?). congruence.
  - intros t. unfold put_ex_cache. simpl.
    destruct (type key =? SEQ_CACHE_STORE_FINAL_OUT); [done|].
    intros [= <-]. eexists. rewrite Hkey, decide_True by done.
    split; [done|]. destruct (stored sc key); simpl; done.
Qed.

(** ** Lookup *)

Lemma find_None_Forall {A} (f : A → bool) (l : list A) :
  find f l = None ↔ Forall (λ x, f x = false) l.
Proof.
  induction l as [|a l IH]; simpl.
  - split; [constructor|done].
  - destruct (f a) eqn:Ef.
    + split; [done|]. intros H. inversion H; congruence.
    + rewrite IH. split; [by constructor|]. intros H. by inversion H.
Qed.

Lemma ghash_lookup_None cmp h key :
  BLI_ghash_lookup cmp h key = None ↔
  ∀ x e, h !! x = Some e → cmp key e.1 = true.
Proof.
  unfold BLI_ghash_lookup. rewrite !fmap_None, find_None_Forall, Forall_forall.
  split.
  - intros H x e Hx. specialize (H (x, e)). simpl in H.
    apply negb_false_iff, H. by apply elem_of_map_to_list.
  - intros H [x e] Hin. apply elem_of_map_to_list in Hin.
    apply negb_false_iff. by apply (H x).
Qed.

Lemma hashcmp_unlinked a k1 k2 :
  unlinked k1 = unlinked k2 →
  seq_cache_hashcmp E a k1 = seq_cache_hashcmp E a k2.
Proof.
  destruct k1, k2. unfold unlinked. simpl. intros [= -> -> -> -> _ _]. done.
Qed.

Lemma ghash_lookup_None_sub h' h key :
  sub_table h' h →
  BLI_ghash_lookup (seq_cache_hashcmp E) h key = None →
  BLI_ghash_lookup (seq_cache_hashcmp E) h' key = None.
Proof.
  rewrite !ghash_lookup_None. intros Hsub H x e' Hx.
  destruct (Hsub _ _ Hx) as (e & He & Hu & _).
  rewrite <-(hashcmp_unlinked key _ _ Hu). by apply (H x).
Qed.

Lemma get_ex_miss c key ims :
  BLI_ghash_lookup (seq_cache_hashcmp E) (hash c) key = None →
  seq_cache_get_ex E c key ims = (None, ims).
Proof. intros H. unfold seq_cache_get_ex. by rewrite H. Qed.

(** An insertion keeps the entries that were there, up to a link. *)
Lemma put_ex_hash_sub sc c p key ib x e' :
  x ≠ p → fresh_key key →
  put_ex_hash sc c p key ib !! x = Some e' →
  ∃ e, hash c !! x = Some e ∧ unlinked e.1 = unlinked e'.1 ∧ e.2 = e'.2.
Proof.
  intros Hx Hf. rewrite put_ex_hash_old by done.
  destruct (hash c !! x) as [[k it]|]; [|by destruct (_ && _)].
  destruct (_ && _); simpl; intros [= <-]; eexists; (split; [done|]);
    by destruct k.
Qed.

Lemma put_ex_hash_fresh sc c p key ib x :
  x ≠ p → fresh_key key → hash c !! x = None →
  put_ex_hash sc c p key ib !! x = None.
Proof.
  intros Hx Hf Hn. rewrite put_ex_hash_old, Hn by done. by destruct (_ && _).
Qed.

Lemma size_put_ex_hash sc c p key ib :
  hash c !! p = None →
  size (put_ex_hash sc c p key ib) = S (size (hash c)).
Proof.
  intros Hp. unfold put_ex_hash.
  destruct (is_temp_cache _); rewrite ?size_alter_at;
    by rewrite map_size_insert_None.
Qed.




(** ** Recycling a chain *)


(** ** Choice of the key to recycle *)

(** C1: with prefetching enabled and a prefetch job running over
    [pfjob_start, pfjob_end], the choice between a leftmost and a rightmost
    candidate returns the leftmost one when its timeline frame is outside
    the window, else the rightmost one when its frame is outside, and no key
    when both frames are inside; a chosen key is never inside the window. *)
Theorem choose_key_prefetch_window sc h l r kl kr pfjob_start pfjob_end :
  key_of h l = Some kl → key_of h r = Some kr →
  nonzero (Z.land (ed_cache_flag sc) SEQ_CACHE_PREFETCH_ENABLE) = true →
  prefetch_job sc = Some (pfjob_start, pfjob_end) →
  let inside key :=
    pfjob_start <= seq_cache_key_timeline_frame_get E key <= pfjob_end in
  ∃ chosen,
    seq_cache_choose_key E sc h (Some l) (Some r) = Done chosen
    ∧ (¬ inside kl → chosen = Some l)
    ∧ (inside kl → ¬ inside kr → chosen = Some r)
    ∧ (inside kl → inside kr → chosen = None)
    ∧ (∀ p key, chosen = Some p → key_of h p = Some key → ¬ inside key).
Proof.
  intros Hl Hr Hflag Hjob inside.
  unfold seq_cache_choose_key. simpl.
  rewrite (proj2 (key_at_Done _ _ _) Hl), (proj2 (key_at_Done _ _ _) Hr).
  simpl. rewrite Hflag. unfold seq_prefetch_job_is_running,
    seq_prefetch_get_time_range. rewrite Hjob. simpl.
  rewrite ?bool_decide_eq_true_2 by eauto. simpl.
  assert (Hout : ∀ key,
    outside (seq_cache_key_timeline_frame_get E key) pfjob_start pfjob_end
      = true ↔ ¬ inside key).
  { intros key. unfold outside, inside.
    rewrite orb_true_iff, Z.ltb_lt, Z.gtb_lt. lia. }
  destruct (outside (seq_cache_key_timeline_frame_get E kl) _ _) eqn:El.
  - apply Hout in El. eexists. split; [done|].
    repeat split; try done; try tauto.
    intros p key [= <-] Hk. by simplify_eq.
  - assert (inside kl) as Hin.
    { destruct (decide (inside kl)) as [|Hn]; [done|].
      apply Hout in Hn. congruence. }
    destruct (outside (seq_cache_key_timeline_frame_get E kr) _ _) eqn:Er.
    + apply Hout in Er. eexists. split; [done|].
      repeat split; try done; try tauto.
      intros p key [= <-] Hk. by simplify_eq.
    + assert (inside kr) as Hin'.
      { destruct (decide (inside kr)) as [|Hn]; [done|].
        apply Hout in Hn. congruence. }
      eexists. split; [done|]. repeat split; try done; tauto.
Qed.

(** ** Iteration *)

Lemma elem_of_ghashIterator h x :
  x ∈ BLI_ghashIterator_init h ↔ is_Some (h !! x).
Proof.
  unfold BLI_ghashIterator_init. rewrite list_elem_of_fmap. split.
  - intros ([y e] & -> & Hin). apply elem_of_map_to_list in Hin. eauto.
  - intros [e He]. exists (x, e). split; [done|]. by apply elem_of_map_to_list.
Qed.


Lemma iterate_loop_Done {U} (callback_iter : U → Strip → Z → Z → bool * U)
    h it : ∀ interrupt userdata,
  (∀ x, x ∈ it → is_Some (h !! x)) →
  ∃ userdata', iterate_loop E callback_iter h it interrupt userdata
               = Done userdata'.
Proof.
  induction it as [|p it IH]; intros interrupt userdata Hin; simpl; [eauto|].
  destruct interrupt; [eauto|].
  destruct (Hin p) as [e He]; [by left|].
  unfold key_at. rewrite He. simpl.
  destruct (callback_iter _ _ _ _) as [interrupt' userdata'].
  apply IH. intros x Hx. apply Hin. by right.
Qed.

(** An insertion into a cache whose chain tail is null. *)
Lemma put_ex_no_tail sc c ims p key ib :
  ed_cache sc = Some c → last_key c = None →
  seq_cache_put_ex sc ims p key ib =
    Done (set_ed_cache
            (Some (set_last_key
                     (if type key =? SEQ_CACHE_STORE_FINAL_OUT then None
                      else Some p)
                     (set_hash
                        (<[p := (if stored sc key
                                 then set_link_prev None
                                        (set_is_temp_cache false key)
                                 else key,
                                 {| ibuf := Some ib |})]> (hash c)) c))) sc,
          IMB_refImBuf ib ims).
Proof.
  intros Hc Hl. rewrite (put_ex_Done sc c ims p key ib Hc).
  - unfold put_ex_cache, put_ex_hash. rewrite Hl. simpl.
    by destruct (is_temp_cache _).
  - intros t. by rewrite Hl.
Qed.

(** C10: iterating over the cache for statistics returns, removes no entry
    and changes no entry (the table is the same), and leaves the chain tail
    null; so the first key inserted afterwards has no [link_prev] and no
    [link_next], and its insertion changes none of the entries that were
    there. *)
Theorem cache_iterate_resets_last_key {U}
    (callback_init : U → nat → bool * U)
    (callback_iter : U → Strip → Z → Z → bool * U) sc userdata :
  ∃ userdata',
    cache_iterate E callback_init callback_iter sc userdata
      = Done (set_ed_cache (set_last_key None <$> ed_cache sc) sc, userdata')
    ∧ ∀ c ims p key ib,
        ed_cache sc = Some c → fresh_key key →
        ∃ sc' c' key',
          seq_cache_put_ex (set_ed_cache (Some (set_last_key None c)) sc)
                           ims p key ib
            = Done (sc', IMB_refImBuf ib ims)
          ∧ ed_cache sc' = Some c'
          ∧ hash c' = <[p := (key', {| ibuf := Some ib |})]> (hash c)
          ∧ link_prev key' = None ∧ link_next key' = None.
Proof.
  unfold cache_iterate, seq_cache_get_from_scene.
  destruct (ed_cache sc) as [c|] eqn:Hc; simpl.
  - destruct (callback_init userdata (size (hash c))) as [interrupt u1].
    destruct (iterate_loop_Done callback_iter (hash c)
                (BLI_ghashIterator_init (hash c)) interrupt u1) as [u2 Hu2].
    { intros x. by rewrite elem_of_ghashIterator. }
    exists u2. rewrite Hu2. simpl. split; [done|].
    intros c0 ims p key ib [= <-] (Hfp & Hfn & _).
    eexists _, _, _. split.
    { by apply put_ex_no_tail. }
    simpl. split; [done|]. split; [done|].
    destruct (stored _ key); simpl; done.
  - exists userdata. split; [by destruct sc; simplify_eq/=|]. done.
Qed.

(** ** Links and temporary entries *)










(** ** Chains after a final-output entry *)

(** A run of insertions: the address, the key and the image of each. *)
Fixpoint put_ex_all sc ims (ds : list (positive * SeqCacheKey * positive))
    : outcome (Scene * ImBufs) :=
  match ds with
  | [] => Done (sc, ims)
  | (p, key, ib) :: ds =>
      st ← seq_cache_put_ex sc ims p key ib;
      put_ex_all st.1 st.2 ds
  end.




(** ** Invalidation *)





Lemma nonzero_true z : nonzero z = true ↔ z ≠ 0.
Proof. unfold nonzero. rewrite negb_true_iff. apply Z.eqb_neq. Qed.






(** ** Storing twice *)


(** The context and strip a call works with are the ones the cache itself
    is asked for: a redirected prefetch context is an ordinary context. *)
Definition effective (context : RenderData) : Prop :=
  skip_cache context = false ∧ is_proxy_render context = false
  ∧ is_prefetch_render context = false.

Lemma prefetch_redirect_effective context s :
  is_prefetch_render context = false →
  prefetch_redirect E context (Some s) = (context, Some s).
Proof. intros H. unfold prefetch_redirect. by rewrite H. Qed.

Lemma seq_cache_create_id bmain sc c :
  ed_cache sc = Some c → seq_cache_create bmain sc = sc.
Proof. intros H. unfold seq_cache_create. by rewrite H. Qed.

Lemma store_scene_id (w : World) sp sc :
  scenes w !! sp = Some sc → store_scene sp sc (imbufs w) w = w.
Proof.
  intros H. unfold store_scene. rewrite insert_id by done. by destruct w.
Qed.

(** A fetch that hits the RAM cache returns the cached image with one more
    reference on it and leaves the cache as it was. *)
Lemma seq_cache_get_hit fuel (w : World) context s timeline_frame ty p
    sc c item ib :
  effective context →
  scenes w !! scene context = Some sc → ed_cache sc = Some c →
  BLI_ghash_lookup (seq_cache_hashcmp E) (hash c)
    (seq_cache_populate_key E context s timeline_frame ty) = Some item →
  ibuf item = Some ib →
  seq_cache_get E fuel w context (Some s) timeline_frame ty p =
    Done (Some ib,
          {| scenes := scenes w; imbufs := IMB_refImBuf ib (imbufs w) |}).
Proof.
  intros (Hskip & Hproxy & Hpre) Hsc Hc Hlook Hib.
  unfold seq_cache_get. rewrite Hskip, Hproxy. simpl.
  rewrite prefetch_redirect_effective by done.
  unfold scene_at. rewrite Hsc. simpl.
  rewrite (seq_cache_create_id _ sc c Hc).
  unfold seq_cache_get_from_scene. rewrite Hc.
  unfold seq_cache_get_ex. rewrite Hlook, Hib.
  unfold store_scene. by rewrite insert_id.
Qed.


(** What the comparison of two keys looks at. *)
Definition key_ident key : Strip * RenderData * float * Z :=
  (strip key, context key, frame_index key, type key).

Lemma hashcmp_ident a k1 k2 :
  key_ident k1 = key_ident k2 →
  seq_cache_hashcmp E a k1 = seq_cache_hashcmp E a k2.
Proof.
  unfold key_ident, seq_cache_hashcmp. by intros [= -> -> -> ->].
Qed.

Lemma seq_cmp_render_data_false a b :
  seq_cmp_render_data E a b = false ↔
  preview_render_size a = preview_render_size b
  ∧ rectx a = rectx b ∧ recty a = recty b
  ∧ bmain a = bmain b ∧ scene a = scene b
  ∧ F32.eqb (motion_blur_shutter a) (motion_blur_shutter b) = true
  ∧ motion_blur_samples a = motion_blur_samples b
  ∧ scene_views_format E (scene a) = scene_views_format E (scene b)
  ∧ view_id a = view_id b.
Proof.
  unfold seq_cmp_render_data, F32.neb.
  rewrite !orb_false_iff, !negb_false_iff, !Z.eqb_eq, !Pos.eqb_eq. tauto.
Qed.

Lemma seq_cache_hashcmp_false a b :
  seq_cache_hashcmp E a b = false ↔
  strip_addr (strip a) = strip_addr (strip b)
  ∧ F32.eqb (frame_index a) (frame_index b) = true
  ∧ type a = type b
  ∧ seq_cmp_render_data E (context a) (context b) = false.
Proof.
  unfold seq_cache_hashcmp, F32.neb.
  rewrite !orb_false_iff, !negb_false_iff, !Z.eqb_eq, !Pos.eqb_eq. tauto.
Qed.

Lemma seq_cache_hashcmp_sym a b :
  seq_cache_hashcmp E a b = false → seq_cache_hashcmp E b a = false.
Proof.
  rewrite !seq_cache_hashcmp_false, !seq_cmp_render_data_false.
  intros (? & ? & ? & ? & ? & ? & ? & ? & ? & ? & ? & ?).
  repeat split; try done; by apply F32_eqb_sym.
Qed.

Lemma seq_cache_hashcmp_trans (a b d : SeqCacheKey) :
  seq_cache_hashcmp E a b = false → seq_cache_hashcmp E b d = false →
  seq_cache_hashcmp E a d = false.
Proof.
  rewrite !seq_cache_hashcmp_false, !seq_cmp_render_data_false.
  intros (? & ? & ? & ? & ? & ? & ? & ? & ? & ? & ? & ?)
         (? & ? & ? & ? & ? & ? & ? & ? & ? & ? & ? & ?).
  repeat split; try congruence; by eapply F32_eqb_trans.
Qed.

Lemma ghash_lookup_Some cmp h key item :
  BLI_ghash_lookup cmp h key = Some item →
  ∃ x k, h !! x = Some (k, item) ∧ cmp key k = false.
Proof.
  unfold BLI_ghash_lookup.
  destruct (find _ (map_to_list h)) as [[x [k it]]|] eqn:Hf; [|done].
  simpl. intros [= <-]. apply find_some in Hf as [Hin Hc].
  exists x, k. split.
  - apply elem_of_map_to_list. by apply list_elem_of_In.
  - by apply negb_true_iff in Hc.
Qed.







Lemma scenes_store_scene sp sc ims (w : World) :
  scenes (store_scene sp sc ims w) !! sp = Some sc.
Proof. unfold store_scene. simpl. by rewrite lookup_insert_eq. Qed.









(** ** Hashing *)

Lemma shutter_hash_eq (x y : float) :
  F32.eqb x y = true →
  F32.to_int (F32.mul x (F32.of_int 100))
  = F32.to_int (F32.mul y (F32.of_int 100)).
Proof.
  intros H. apply F32_eqb_spec in H as [->|(s1 & s2 & -> & ->)]; [done|].
  by destruct s1, s2.
Qed.

(** Keys that compare equal have equal hashes, provided their frame indices
    have the same bits. *)
Lemma hashhash_equal_keys a b :
  seq_cache_hashcmp E a b = false →
  F32.bits (frame_index a) = F32.bits (frame_index b) →
  seq_cache_hashhash E a = seq_cache_hashhash E b.
Proof.
  rewrite seq_cache_hashcmp_false, seq_cmp_render_data_false.
  intros (Hs & _ & Ht & Hp & Hx & Hy & Hb & Hsc & Hsh & Hsa & Hvf & Hv) Hbits.
  unfold seq_cache_hashhash, seq_hash_render_data.
  by rewrite Hs, Ht, Hp, Hx, Hy, Hb, Hsc, (shutter_hash_eq _ _ Hsh), Hsa, Hv,
    Hbits.
Qed.

(** ** The entry that does not fit *)








Lemma set_is_temp_twice key :
  set_is_temp_cache true (set_is_temp_cache true key)
  = set_is_temp_cache true key.
Proof. done. Qed.







Lemma length_ghashIterator h : length (BLI_ghashIterator_init h) = size h.
Proof.
  unfold BLI_ghashIterator_init. by rewrite length_fmap, length_map_to_list.
Qed.

(** A scan over keys none of which is a candidate leaves both candidates as
    they were. *)
Lemma get_item_scan_skips sc c ims lkey rkey it : ∀ fuel,
  ed_cache sc = Some c →
  (length it ≤ fuel)%nat →
  (∀ x, x ∈ it → ∃ e, hash c !! x = Some e ∧ is_Some (ibuf e.2)
       ∧ (is_temp_cache e.1 = true ∨ is_Some (link_next e.1))) →
  get_item_scan E fuel sc ims it lkey rkey = Done (lkey, rkey, sc, ims).
Proof.
  induction it as [|x it IH]; intros fuel Hc Hlen Hskip;
    [by destruct fuel|].
  destruct fuel as [|fuel]; [simpl in Hlen; lia|]. simpl.
  unfold seq_cache_get_from_scene. rewrite Hc.
  destruct (Hskip x) as (e & He & [ib Hib] & Hcand); [by left|].
  unfold key_at, item_at. rewrite He. simpl. rewrite Hib.
  assert (is_temp_cache e.1 || bool_decide (is_Some (link_next e.1)) = true)
    as ->.
  { destruct Hcand as [->|Hn]; [done|].
    rewrite bool_decide_eq_true_2 by done. by rewrite orb_true_r. }
  apply IH; [done|simpl in Hlen; lia|]. intros y Hy. apply Hskip. by right.
Qed.

(** C8, where the code departs from it: when the memory is over the budget
    and no entry of the table is a candidate for eviction (the table is
    empty, or every entry is temp or has a successor),
    [seq_cache_put_if_possible] does not return false:
    [seq_cache_choose_key] is called with two null candidates and reads
    their timeline frames. *)
Theorem put_if_possible_no_candidate fuel (w : World) context strip_
    timeline_frame ty i p context' s' sc c :
  prefetch_redirect E context strip_ = (context', Some s') →
  scenes w !! scene context' = Some sc → ed_cache sc = Some c →
  seq_cache_is_full E (imbufs w) = true →
  (∀ x e, hash c !! x = Some e →
     is_Some (ibuf e.2)
     ∧ (is_temp_cache e.1 = true ∨ is_Some (link_next e.1))) →
  (size (hash c) < fuel)%nat →
  seq_cache_put_if_possible E fuel w context strip_ timeline_frame ty i p
  = Undefined.
Proof.
  intros Hred Hsc Hc Hfull Hnone Hfuel.
  unfold seq_cache_put_if_possible. rewrite Hred.
  unfold scene_at. rewrite Hsc. simpl.
  unfold seq_cache_recycle_item, seq_cache_get_from_scene. rewrite Hc.
  destruct fuel as [|fuel]; [lia|]. simpl. rewrite Hfull. simpl.
  unfold seq_cache_get_item_for_removal, seq_cache_get_from_scene.
  rewrite Hc.
  rewrite (get_item_scan_skips sc c (imbufs w) None None
             (BLI_ghashIterator_init (hash c)) fuel Hc).
  - simpl. unfold seq_cache_get_from_scene. by rewrite Hc.
  - rewrite length_ghashIterator. lia.
  - intros x Hx. apply elem_of_ghashIterator in Hx as [e He].
    exists e. split; [done|]. by apply (Hnone x).
Qed.

End Properties.

(** * Examples

    A small world: one scene at address 1, two strips, no disk tier, a
    memory limit of one megabyte with every live image buffer counted as one
    megabyte.  Strip 7 covers frames 0 to 10; strip 8 covers frames 5 to
    20.  The media-relative frame index clamps frames before the start of a
    strip to the first frame of its media. *)

Definition ex_start (s : Strip) : Z :=
  if Pos.eqb (strip_addr s) 8 then 5 else 0.

Definition ex_give_frame_index (s : Strip) (timeline_frame : float) : float :=
  let d := F32.sub timeline_frame (F32.of_int (ex_start s)) in
  if F32.ltb d F32.zero then F32.zero else d.

Definition ex_env : @Env unit := {|
  time_start_frame_get := fun s => F32.of_int (ex_start s);
  time_left_handle_frame_get := ex_start;
  time_right_handle_frame_get :=
    fun s => if Pos.eqb (strip_addr s) 8 then 20 else 10;
  give_frame_index := ex_give_frame_index;
  scene_views_format := fun _ => 0;
  seq_prefetch_original_context_get := fun context => context;
  seq_prefetch_original_strip_get := fun s _ => Some s;
  memcachelimit := 1;
  MEM_get_memory_in_use := fun ims => 1048576 * Z.of_nat (size ims);
  seq_disk_cache_is_enabled := fun _ => false;
  seq_disk_cache_create := fun _ _ => tt;
  seq_disk_cache_read_file := fun _ _ ims => (None, ims);
  seq_disk_cache_write_file := fun d _ _ => d;
  seq_disk_cache_enforce_limits := fun d => d;
  seq_disk_cache_invalidate := fun d _ _ _ => d;
|}.

Definition ex_context : RenderData := {|
  bmain := 1; scene := 1; rectx := 640; recty := 480;
  preview_render_size := 0; motion_blur_shutter := F32.zero;
  motion_blur_samples := 0; view_id := 0;
  skip_cache := false; is_proxy_render := false;
  is_prefetch_render := false; for_render := false; context_task_id := 0;
|}.

Definition ex_strip : Strip :=
  {| strip_addr := 7; strip_type := 0; strip_cache_flag := 0 |}.



(** A key of [ex_strip] at a timeline frame, as the cache populates it. *)
Definition ex_key (timeline_frame ty : Z) : SeqCacheKey :=
  seq_cache_populate_key ex_env ex_context ex_strip
    (F32.of_int timeline_frame) ty.

Definition ex_cache : @SeqCache unit :=
  {| cache_bmain := 1; hash := ∅; last_key := None; disk_cache := None |}.

(** All four stages are stored and prefetching is enabled. *)
Definition ex_cache_flag : Z :=
  Z.lor 15 SEQ_CACHE_PREFETCH_ENABLE.

Definition ex_scene (job : option (Z * Z)) : @Scene unit :=
  {| ed_cache := Some ex_cache; ed_cache_flag := ex_cache_flag; r_cfra := 0;
     prefetch_job := job |}.

Definition ex_imbufs : ImBufs :=
  <[100%positive := 0%nat]> (<[101%positive := 0%nat]>
    (<[102%positive := 0%nat]> (<[103%positive := 0%nat]> ∅))).

Definition ex_world (job : option (Z * Z)) : @World unit :=
  {| scenes := {[ 1%positive := ex_scene job ]}; imbufs := ex_imbufs |}.

(** ** Choosing between two candidates *)

Definition ex_hash_two : gmap positive (SeqCacheKey * SeqCacheItem) :=
  <[1%positive := (ex_key 5 SEQ_CACHE_STORE_RAW, {| ibuf := Some 100%positive |})]>
    (<[2%positive := (ex_key 15 SEQ_CACHE_STORE_RAW, {| ibuf := Some 101%positive |})]> ∅).

Lemma choose_key_prefetch_window_witness :
  seq_cache_choose_key ex_env (ex_scene (Some (10, 20))) ex_hash_two
    (Some 1%positive) (Some 2%positive) = Done (Some 1%positive)
  ∧ seq_cache_choose_key ex_env (ex_scene (Some (10, 20))) ex_hash_two
    (Some 2%positive) (Some 1%positive) = Done (Some 1%positive).
Proof.
  split.
  - destruct (choose_key_prefetch_window ex_env (ex_scene (Some (10, 20)))
      ex_hash_two 1 2 (ex_key 5 SEQ_CACHE_STORE_RAW)
      (ex_key 15 SEQ_CACHE_STORE_RAW) 10 20 eq_refl eq_refl eq_refl eq_refl)
      as (chosen & Hrun & Hl & _).
    rewrite Hrun. f_equal. apply Hl. vm_compute. intros [H _]. by apply H.
  - destruct (choose_key_prefetch_window ex_env (ex_scene (Some (10, 20)))
      ex_hash_two 2 1 (ex_key 15 SEQ_CACHE_STORE_RAW)
      (ex_key 5 SEQ_CACHE_STORE_RAW) 10 20 eq_refl eq_refl eq_refl eq_refl)
      as (chosen & Hrun & _ & Hr & _).
    rewrite Hrun. f_equal. apply Hr.
    + vm_compute. split; discriminate.
    + vm_compute. intros [H _]. by apply H.
Defined.

Lemma links_ok_empty : links_ok ∅.
Proof. intros p k Hk. unfold key_of in Hk. by rewrite lookup_empty in Hk. Qed.

(** ** Recycling a chain *)



(** ** Storing twice *)



(** ** Chains after a final-output entry *)




(** ** Links and temporary entries *)






(** ** Invalidation *)


(** Two final-output entries, at frames 15 and 7. *)
Definition ex_cache_finals : @SeqCache unit :=
  put_ex_cache (ex_scene None)
    (put_ex_cache (ex_scene None) ex_cache 1
       (ex_key 15 SEQ_CACHE_STORE_FINAL_OUT) 100)
    2 (ex_key 7 SEQ_CACHE_STORE_FINAL_OUT) 101.

Definition ex_scene_finals : @Scene unit :=
  set_ed_cache (Some ex_cache_finals) (ex_scene None).



(** ** Frame index of raw keys *)




(** ** The entry that does not fit *)

Lemma put_if_possible_no_candidate_witness :
  seq_cache_put_if_possible ex_env 10 (ex_world None) ex_context
    (Some ex_strip) (F32.of_int 16) SEQ_CACHE_STORE_FINAL_OUT
    (Some 102%positive) 3 = Undefined.
Proof.
  apply (put_if_possible_no_candidate ex_env 10 (ex_world None) ex_context
           (Some ex_strip) (F32.of_int 16) SEQ_CACHE_STORE_FINAL_OUT
           (Some 102%positive) 3 ex_context ex_strip (ex_scene None) ex_cache).
  - reflexivity.
  - reflexivity.
  - reflexivity.
  - reflexivity.
  - intros x e. simpl. by rewrite lookup_empty.
  - simpl. rewrite map_size_empty. lia.
Defined.

(** ** Hashing *)

(** C9, where the code departs from it: the keys of two requests for a
    preprocessed image of the strip starting at frame 0, one at timeline
    frame 0.0 and one at -0.0, compare equal and have different hashes. *)
Theorem hashhash_differs_on_equal_keys :
  let a := seq_cache_populate_key ex_env ex_context ex_strip F32.zero
             SEQ_CACHE_STORE_PREPROCESSED in
  let b := seq_cache_populate_key ex_env ex_context ex_strip F32.neg_zero
             SEQ_CACHE_STORE_PREPROCESSED in
  frame_index a = F32.zero ∧ frame_index b = F32.neg_zero
  ∧ seq_cache_hashcmp ex_env a b = false
  ∧ seq_cache_hashhash ex_env a ≠ seq_cache_hashhash ex_env b.
Proof. repeat split; try reflexivity. discriminate. Qed.

(** ** Iterating *)

(** A callback pair that counts the entries it is shown. *)
Definition ex_callback_init (u : nat) (n : nat) : bool * nat := (false, u).

Definition ex_callback_iter (u : nat) (s : Strip) (timeline_frame ty : Z)
    : bool * nat :=
  (false, S u).

Lemma cache_iterate_resets_last_key_witness :
  ∃ userdata' sc' c' key',
    cache_iterate ex_env ex_callback_init ex_callback_iter ex_scene_finals
      0%nat
    = Done (set_ed_cache (Some (set_last_key None ex_cache_finals))
              ex_scene_finals, userdata')
    ∧ seq_cache_put_ex
        (set_ed_cache (Some (set_last_key None ex_cache_finals))
           ex_scene_finals)
        ex_imbufs 3 (ex_key 8 SEQ_CACHE_STORE_RAW) 102
      = Done (sc', IMB_refImBuf 102 ex_imbufs)
    ∧ ed_cache sc' = Some c'
    ∧ hash c' = <[3%positive := (key', {| ibuf := Some 102%positive |})]>
                  (hash ex_cache_finals)
    ∧ link_prev key' = None ∧ link_next key' = None.
Proof.
  destruct (cache_iterate_resets_last_key ex_env ex_callback_init
              ex_callback_iter ex_scene_finals 0%nat) as (u & Hrun & Hput).
  destruct (Hput ex_cache_finals ex_imbufs 3%positive
              (ex_key 8 SEQ_CACHE_STORE_RAW) 102%positive)
    as (sc' & c' & key' & Hp & Hrest).
  - reflexivity.
  - done.
  - by exists u, sc', c', key'.
Defined.

(** * Further properties of the cache *)

Lemma F32_eqb_refl (x : spec_float) : F32.eqb x x = true ↔ x ≠ S754_nan.
Proof.
  unfold F32.eqb, SFeqb, SFcompare.
  destruct x as [s|s| |s m e].
  - done.
  - by destruct s.
  - split; [done|by intros []].
  - split; [done|intros _].
    destruct s; rewrite Z.compare_refl, Pos.compare_cont_refl; done.
Qed.

Section KeyProperties.
Context {DiskCache : Type} (E : @Env DiskCache).
Implicit Types (sc : @Scene DiskCache) (c : @SeqCache DiskCache).
Implicit Types (w : @World DiskCache).
Implicit Types (h : gmap positive (SeqCacheKey * SeqCacheItem)).
Implicit Types (ims : gmap positive nat) (p : positive) (key : SeqCacheKey).

(** ** Key comparison and hashing *)

(** X22: the comparison callback of the table relates keys like an equality,
    except for keys that hold a NaN: it is symmetric and transitive, and a
    key equals itself exactly when neither its frame index nor the motion
    blur shutter of its context is a NaN. *)
Theorem hashcmp_partial_equivalence (a b d : SeqCacheKey) :
  (seq_cache_hashcmp E a a = false ↔
     frame_index a ≠ S754_nan
     ∧ motion_blur_shutter (context a) ≠ S754_nan)
  ∧ (seq_cache_hashcmp E a b = false ↔ seq_cache_hashcmp E b a = false)
  ∧ (seq_cache_hashcmp E a b = false → seq_cache_hashcmp E b d = false →
     seq_cache_hashcmp E a d = false).
Proof.
  split; [|split].
  - rewrite seq_cache_hashcmp_false, seq_cmp_render_data_false,
      !F32_eqb_refl. intuition.
  - split; apply seq_cache_hashcmp_sym.
  - apply seq_cache_hashcmp_trans.
Qed.

(** X24: a key that holds a NaN frame index is found in no table, whatever the
    table holds: a fetch with it misses and takes no reference. *)
Theorem nan_key_never_found c key ims :
  frame_index key = S754_nan →
  BLI_ghash_lookup (seq_cache_hashcmp E) (hash c) key = None
  ∧ seq_cache_get_ex E c key ims = (None, ims).
Proof.
  intros Hnan.
  assert (Hmiss : BLI_ghash_lookup (seq_cache_hashcmp E) (hash c) key = None).
  { apply ghash_lookup_None. intros x e _.
    destruct (seq_cache_hashcmp E key e.1) eqn:Hc; [done|].
    apply seq_cache_hashcmp_false in Hc as (_ & Hf & _).
    rewrite Hnan in Hf. done. }
  split; [done|]. by apply get_ex_miss.
Qed.

(** X23: keys that compare equal have the same hash unless their frame indices
    are the two zeros of opposite sign. *)
Theorem hashhash_respects_hashcmp (a b : SeqCacheKey) :
  seq_cache_hashcmp E a b = false →
  ¬ (∃ s, frame_index a = S754_zero s ∧ frame_index b = S754_zero (negb s)) →
  seq_cache_hashhash E a = seq_cache_hashhash E b.
Proof.
  intros Hcmp Hz. apply hashhash_equal_keys; [done|].
  apply seq_cache_hashcmp_false in Hcmp as (_ & Hf & _).
  apply F32_eqb_spec in Hf as [->|(s & s' & Ha & Hb)]; [done|].
  rewrite Ha, Hb. destruct s, s'; try done; destruct Hz.
  - exists true. by rewrite Ha, Hb.
  - exists false. by rewrite Ha, Hb.
Qed.

End KeyProperties.

Section TableProperties.
Context {DiskCache : Type} (E : @Env DiskCache).
Implicit Types (sc : @Scene DiskCache) (c : @SeqCache DiskCache).
Implicit Types (w : @World DiskCache).
Implicit Types (h : gmap positive (SeqCacheKey * SeqCacheItem)).
Implicit Types (ims : gmap positive nat) (p : positive) (key : SeqCacheKey).

(** ** Removing a linked key *)


(** ** Chains of insertions *)

(** X15: insertions keep the links consistent: after any sequence of insertions
    of fresh keys at fresh addresses every link points to a key of the table
    that points back, the chain tail is a key of the table without a
    successor, and the table has grown by one entry per insertion. *)
Theorem put_ex_all_keeps_links ds : ∀ sc c ims,
  ed_cache sc = Some c → links_ok (hash c) → tail_ok c →
  Forall (λ d, fresh_key d.1.2) ds →
  NoDup ((ds.*1).*1) →
  (∀ p, p ∈ (ds.*1).*1 → hash c !! p = None) →
  ∃ sc' ims' c',
    put_ex_all sc ims ds = Done (sc', ims')
    ∧ ed_cache sc' = Some c'
    ∧ links_ok (hash c') ∧ tail_ok c'
    ∧ size (hash c') = (size (hash c) + length ds)%nat
    ∧ (∀ p, is_Some (hash c' !! p) ↔
         is_Some (hash c !! p) ∨ p ∈ (ds.*1).*1).
Proof.
  induction ds as [|[[p key] ib] ds IH]; intros sc c ims Hc Hok Htail Hfr Hnd Hnew.
  - exists sc, ims, c. simpl. split; [done|]. split; [done|].
    split; [done|]. split; [done|]. split; [lia|].
    intros x. split; [by left|].
    intros [?|Hx]; [done|]. by apply elem_of_nil in Hx.
  - simpl in *. apply Forall_cons in Hfr as [Hfk Hfr].
    apply NoDup_cons in Hnd as [Hp Hnd].
    assert (Hpn : hash c !! p = None) by (apply Hnew; by left).
    rewrite (put_ex_Done sc c ims p key ib Hc (tail_ok_live c Htail)). simpl.
    destruct (put_ex_links_ok sc c p key ib Hpn Hfk Hok Htail) as [Hok1 Htail1].
    destruct (IH (set_ed_cache (Some (put_ex_cache sc c p key ib)) sc)
                 (put_ex_cache sc c p key ib) (IMB_refImBuf ib ims))
      as (sc' & ims' & c' & Hrun & Hc' & Hok' & Htail' & Hsize & Hdom);
      try done.
    { intros x Hx. simpl. apply put_ex_hash_fresh; [|done|].
      - intros ->. done.
      - apply Hnew. by right. }
    exists sc', ims', c'. split; [done|]. split; [done|].
    split; [done|]. split; [done|]. split.
    + rewrite Hsize. simpl. rewrite size_put_ex_hash by done. lia.
    + intros x. rewrite Hdom. simpl. rewrite elem_of_cons.
      destruct (decide (x = p)) as [->|Hx].
      * rewrite put_ex_hash_new by (done || by apply tail_ok_live).
        split; [intros _; right; by left|intros _; left; eauto].
      * assert (is_Some (put_ex_hash sc c p key ib !! x)
                ↔ is_Some (hash c !! x)) as ->.
        { rewrite put_ex_hash_old by done.
          destruct (_ && _); [|done]. by rewrite fmap_is_Some. }
        intuition.
Qed.

(** ** Which entries are stored *)

(** X16: the stage flags that [seq_cache_put_ex] stores: a final-output entry is
    stored whenever the scene stores final output, whatever the flags of
    its strip; an entry of another stage is stored according to the flags of
    its strip when the strip overrides the scene, and according to the
    flags of the scene when it does not.  An entry that is not stored stays
    temp. *)
Theorem stored_types_policy sc c ims p key ib :
  ed_cache sc = Some c → tail_live c → hash c !! p = None → fresh_key key →
  ∃ sc' c' k',
    seq_cache_put_ex sc ims p key ib = Done (sc', IMB_refImBuf ib ims)
    ∧ ed_cache sc' = Some c'
    ∧ key_of (hash c') p = Some k'
    ∧ (type key = SEQ_CACHE_STORE_FINAL_OUT →
       Z.land (ed_cache_flag sc) SEQ_CACHE_STORE_FINAL_OUT ≠ 0 →
       is_temp_cache k' = false)
    ∧ (type key ∈ [SEQ_CACHE_STORE_RAW; SEQ_CACHE_STORE_PREPROCESSED;
                   SEQ_CACHE_STORE_COMPOSITE] →
       is_temp_cache k' =
         negb (nonzero
                 (Z.land
                    (if nonzero (Z.land (strip_cache_flag (strip key))
                                        SEQ_CACHE_OVERRIDE)
                     then strip_cache_flag (strip key)
                     else ed_cache_flag sc)
                    (type key)))).
Proof.
  intros Hc Htail Hp Hfk.
  rewrite (put_ex_Done sc c ims p key ib Hc Htail).
  eexists _, _, _. split; [done|]. split; [done|].
  simpl. unfold key_of. rewrite put_ex_hash_new by done. simpl.
  split; [done|].
  destruct Hfk as (_ & _ & Htemp).
  unfold stored, get_stored_types_flag.
  set (flag := if nonzero (Z.land (strip_cache_flag (strip key)) _)
               then _ else _).
  split.
  - intros Hty Hfin. rewrite Hty.
    assert (Hst : nonzero (Z.land (Z.lor flag
              (Z.land (ed_cache_flag sc) SEQ_CACHE_STORE_FINAL_OUT))
              SEQ_CACHE_STORE_FINAL_OUT) = true).
    { apply nonzero_true. rewrite Z.land_lor_distr_l.
      rewrite <-Z.land_assoc, Z.land_diag. intros H0.
      apply Z.lor_eq_0_iff in H0 as [_ H0]. done. }
    by rewrite Hst.
  - intros Hty.
    assert (Hsame : Z.land (Z.lor flag
              (Z.land (ed_cache_flag sc) SEQ_CACHE_STORE_FINAL_OUT))
              (type key) = Z.land flag (type key)).
    { rewrite Z.land_lor_distr_l, <-Z.land_assoc.
      assert (Z.land SEQ_CACHE_STORE_FINAL_OUT (type key) = 0) as ->.
      { repeat (apply elem_of_cons in Hty as [->|Hty]; [done|]).
        by apply elem_of_nil in Hty. }
      by rewrite Z.land_0_r, Z.lor_0_r. }
    rewrite Hsame. destruct (nonzero (Z.land flag (type key))); simpl; done.
Qed.

End TableProperties.

Section Candidate.
Context {DiskCache : Type} (E : @Env DiskCache).
Implicit Types (sc : @Scene DiskCache) (c : @SeqCache DiskCache).
Implicit Types (w : @World DiskCache).
Implicit Types (h : gmap positive (SeqCacheKey * SeqCacheItem)).
Implicit Types (ims : gmap positive nat) (p : positive) (key : SeqCacheKey).

(** ** The candidate for removal *)











End Candidate.

Section Recycling.
Context {DiskCache : Type} (E : @Env DiskCache).
Implicit Types (sc : @Scene DiskCache) (c : @SeqCache DiskCache).
Implicit Types (w : @World DiskCache).
Implicit Types (h : gmap positive (SeqCacheKey * SeqCacheItem)).
Implicit Types (ims : gmap positive nat) (p : positive) (key : SeqCacheKey).

(** ** Recycling *)









End Recycling.



(** The image buffers after one reference on [ib'] is released. *)
Lemma IMB_free_lookup ib' (ims : gmap positive nat) ib :
  IMB_freeImBuf ib' ims !! ib =
    if decide (ib = ib')
    then match ims !! ib with Some (S n) => Some n | _ => None end
    else ims !! ib.
Proof.
  unfold IMB_freeImBuf. case_decide as Hd.
  - subst ib'. destruct (ims !! ib) as [[|n]|] eqn:Hl.
    + apply lookup_delete_eq.
    + apply lookup_insert_eq.
    + done.
  - destruct (ims !! ib') as [[|n]|].
    + by rewrite lookup_delete_ne.
    + by rewrite lookup_insert_ne.
    + done.
Qed.

(** The number of entries of a table that hold the image [ib]. *)
Definition holders (h : gmap positive (SeqCacheKey * SeqCacheItem))
    (ib : positive) : nat :=
  length (filter (λ e, ibuf e.2.2 = Some ib) (map_to_list h)).

(** The count of an image after [n] references on it are released: the
    count less [n], the image being freed when it held fewer. *)
Definition released (n : nat) (count : option nat) : option nat :=
  m ← count; if decide (n ≤ m)%nat then Some (m - n)%nat else None.

Lemma released_0 count : released 0 count = count.
Proof.
  destruct count as [m|]; [|done]. unfold released. simpl.
  f_equal. lia.
Qed.

Lemma released_S n count :
  released (S n) count
  = match released n count with Some (S k) => Some k | _ => None end.
Proof.
  destruct count as [m|]; [|done]. unfold released.
  cbn [mbind option_bind].
  destruct (decide (S n ≤ m)%nat), (decide (n ≤ m)%nat); try lia.
  - destruct (m - n)%nat eqn:Hm; [lia|]. f_equal. lia.
  - destruct (m - n)%nat eqn:Hm; [done|lia].
  - done.
Qed.

Lemma free_items_released (l : list (positive * (SeqCacheKey * SeqCacheItem)))
    (ims : gmap positive nat) ib :
  foldr (λ e ims, seq_cache_valfree e.2.2 ims) ims l !! ib
  = released (length (filter (λ e, ibuf e.2.2 = Some ib) l)) (ims !! ib).
Proof.
  induction l as [|e l IH]; simpl.
  - by rewrite released_0.
  - unfold seq_cache_valfree at 1.
    rewrite filter_cons. destruct (ibuf e.2.2) as [ib'|] eqn:Hib.
    + rewrite IMB_free_lookup, IH. case_decide as Hd.
      * subst ib'. rewrite decide_True by done. simpl.
        by rewrite released_S.
      * rewrite decide_False by congruence. done.
    + rewrite decide_False by done. done.
Qed.

Section Freeing.
Context {DiskCache : Type} (E : @Env DiskCache).
Implicit Types (sc : @Scene DiskCache) (c : @SeqCache DiskCache).
Implicit Types (w : @World DiskCache).
Implicit Types (h : gmap positive (SeqCacheKey * SeqCacheItem)).
Implicit Types (ims : gmap positive nat) (p : positive) (key : SeqCacheKey).

(** ** Freeing temp entries *)





(** ** Emptying and destroying the cache *)


(** X20: [seq_cache_destruct] leaves the scene without a cache and releases one
    reference per entry for every image; destroying again changes nothing,
    and so do the other operations on entries: on a scene without a cache
    they return at once. *)
Theorem seq_cache_destruct_detaches sc ims :
  ∃ sc' ims',
    seq_cache_destruct sc ims = (sc', ims')
    ∧ ed_cache sc' = None
    ∧ (∀ ib, ims' !! ib =
         released (default 0%nat ((λ c, holders (hash c) ib) <$> ed_cache sc))
                  (ims !! ib))
    ∧ seq_cache_destruct sc' ims' = (sc', ims')
    ∧ (∀ id timeline_frame,
         seq_cache_free_temp_cache E sc' ims' id timeline_frame
         = Done (sc', ims'))
    ∧ (∀ s s_changed types force,
         seq_cache_cleanup_strip E sc' ims' s s_changed types force
         = Done (sc', ims'))
    ∧ (∀ fuel, seq_cache_recycle_item E fuel sc' ims' = Done (false, sc', ims')).
Proof.
  unfold seq_cache_destruct, seq_cache_get_from_scene.
  destruct (ed_cache sc) as [c|] eqn:Hc; simpl.
  - eexists _, _. split; [done|]. split; [done|]. split.
    { intros ib. apply free_items_released. }
    done.
  - exists sc, ims. split; [done|]. split; [done|]. split.
    { intros ib. by rewrite released_0. }
    unfold seq_cache_free_temp_cache, seq_cache_cleanup_strip,
      seq_cache_recycle_item, seq_cache_get_from_scene. rewrite Hc. done.
Qed.

End Freeing.

Section StoreFetch.
Context {DiskCache : Type} (E : @Env DiskCache).
Implicit Types (sc : @Scene DiskCache) (c : @SeqCache DiskCache).
Implicit Types (w : @World DiskCache).
Implicit Types (h : gmap positive (SeqCacheKey * SeqCacheItem)).
Implicit Types (ims : gmap positive nat) (p : positive) (key : SeqCacheKey).

(** ** Storing and fetching *)

(** The cache [seq_cache_get] and [seq_cache_put] work on: the cache of the
    scene, or the empty cache they create when the scene has none. *)
Definition cache_or_new (bm : positive) sc : SeqCache :=
  default {| cache_bmain := bm; hash := ∅; last_key := None;
             disk_cache := None |} (ed_cache sc).

Lemma create_cache_or_new bm sc :
  ed_cache (seq_cache_create bm sc) = Some (cache_or_new bm sc).
Proof.
  unfold seq_cache_create, cache_or_new.
  by destruct (ed_cache sc) eqn:Hc; simpl.
Qed.

(** A lookup returns the item of the one entry whose key compares equal. *)
Lemma ghash_lookup_unique h key p k item :
  h !! p = Some (k, item) → seq_cache_hashcmp E key k = false →
  (∀ x e, x ≠ p → h !! x = Some e → seq_cache_hashcmp E key e.1 = true) →
  BLI_ghash_lookup (seq_cache_hashcmp E) h key = Some item.
Proof.
  intros Hp Hk Hothers.
  destruct (BLI_ghash_lookup (seq_cache_hashcmp E) h key) as [item'|] eqn:Hl.
  - apply ghash_lookup_Some in Hl as (x & k' & Hx & Hcmp).
    destruct (decide (x = p)) as [->|Hne]; [congruence|].
    specialize (Hothers x _ Hne Hx). simpl in Hothers. congruence.
  - pose proof (proj1 (ghash_lookup_None _ _ _) Hl p _ Hp) as Hcmp.
    simpl in Hcmp. congruence.
Qed.

(** The table after the insertion of [key] at a fresh address into a cache
    that holds no key equal to it: a lookup of [key] returns the inserted
    item, also after the inserted key was marked temp. *)
Lemma lookup_put_ex sc c p key ib (mark : bool) :
  hash c !! p = None → tail_live c → fresh_key key →
  seq_cache_hashcmp E key key = false →
  BLI_ghash_lookup (seq_cache_hashcmp E) (hash c) key = None →
  ∃ k1 h,
    put_ex_hash sc c p key ib !! p = Some (k1, {| ibuf := Some ib |})
    ∧ is_temp_cache k1 = negb (stored sc key)
    ∧ link_prev k1 = (if stored sc key then last_key c else None)
    ∧ (if mark
       then key_update (set_is_temp_cache true) p (put_ex_hash sc c p key ib)
       else Done (put_ex_hash sc c p key ib)) = Done h
    ∧ h !! p = Some (if mark then set_is_temp_cache true k1 else k1,
                     {| ibuf := Some ib |})
    ∧ BLI_ghash_lookup (seq_cache_hashcmp E) h key
      = Some {| ibuf := Some ib |}.
Proof.
  intros Hp Hlive Hfk Hself Hmiss.
  pose proof (put_ex_hash_new sc c p key ib Hp Hlive Hfk) as Hnew.
  set (k1 := if stored sc key
             then set_link_prev (last_key c) (set_is_temp_cache false key)
             else key) in *.
  assert (Hid : key_ident k1 = key_ident key)
    by (unfold k1; by destruct (stored sc key)).
  set (k2 := if mark then set_is_temp_cache true k1 else k1).
  assert (Hid2 : key_ident k2 = key_ident key)
    by (unfold k2; by destruct mark).
  exists k1.
  exists (if mark then <[p := (k2, {| ibuf := Some ib |})]>
                         (put_ex_hash sc c p key ib)
          else put_ex_hash sc c p key ib).
  split; [done|]. split.
  { unfold k1. destruct Hfk as (_ & _ & Ht).
    by destruct (stored sc key). }
  split.
  { unfold k1. destruct Hfk as (Hpv & _).
    by destruct (stored sc key). }
  split.
  { destruct mark; [|done].
    by rewrite (key_update_Done' _ _ _ _ Hnew). }
  assert (Hp2 : (if mark then <[p := (k2, {| ibuf := Some ib |})]>
                                 (put_ex_hash sc c p key ib)
                 else put_ex_hash sc c p key ib) !! p
                = Some (k2, {| ibuf := Some ib |})).
  { unfold k2. destruct mark; [by rewrite lookup_insert_eq|done]. }
  split; [done|].
  eapply ghash_lookup_unique; [exact Hp2| |].
  - by rewrite (hashcmp_ident E key k2 key).
  - intros x e' Hx He'.
    assert (He1 : put_ex_hash sc c p key ib !! x = Some e').
    { destruct mark; [by rewrite lookup_insert_ne in He'|done]. }
    destruct (put_ex_hash_sub sc c p key ib x e' Hx Hfk He1)
      as (e & He & Hun & _).
    rewrite <-(hashcmp_unlinked E key _ _ Hun).
    by apply (proj1 (ghash_lookup_None _ _ _) Hmiss x e).
Qed.

(** X1: round trip: a store in a context that does not bypass the cache, of a
    key the cache does not hold yet, followed by a fetch of the same key,
    returns the stored image and takes one more reference on it.  (With
    the disk tier out of the way: the store is for a render, or the disk
    cache is disabled.)  The store takes one reference on the image, leaves
    the disk cache alone, and the entry is temp exactly when the store is
    for a render or the stage of the key is not among the stored types. *)
Theorem put_then_get fuel fuel' (w : World) context s timeline_frame ty i p p'
    sc :
  let key := seq_cache_populate_key E context s timeline_frame ty in
  let c0 := cache_or_new (bmain context) sc in
  effective context →
  for_render context = true
    ∨ seq_disk_cache_is_enabled E (bmain context) = false →
  scenes w !! scene context = Some sc →
  tail_live c0 → hash c0 !! p = None →
  seq_cache_hashcmp E key key = false →
  BLI_ghash_lookup (seq_cache_hashcmp E) (hash c0) key = None →
  ∃ w1 sc1 c1 k1,
    seq_cache_put E fuel w context (Some s) timeline_frame ty (Some i) p
      = Done w1
    ∧ imbufs w1 = IMB_refImBuf i (imbufs w)
    ∧ scenes w1 !! scene context = Some sc1 ∧ ed_cache sc1 = Some c1
    ∧ hash c1 !! p = Some (k1, {| ibuf := Some i |})
    ∧ is_temp_cache k1
      = for_render context
        || negb (stored (seq_cache_create (bmain context) sc) key)
    ∧ disk_cache c1 = disk_cache c0
    ∧ seq_cache_get E fuel' w1 context (Some s) timeline_frame ty p'
      = Done (Some i,
              {| scenes := scenes w1;
                 imbufs := IMB_refImBuf i (imbufs w1) |}).
Proof.
  intros key c0 Heff Hnodisk Hsc Hlive Hp Hself Hmiss.
  pose proof Heff as (Hskip & Hproxy & Hpre).
  set (sc0 := seq_cache_create (bmain context) sc).
  assert (Hc0 : ed_cache sc0 = Some c0) by apply create_cache_or_new.
  set (w0 := store_scene (scene context) sc0 (imbufs w) w).
  (* the duplicate check misses *)
  assert (Hget : seq_cache_get E fuel w context (Some s) timeline_frame ty p
                 = Done (None, w0)).
  { unfold seq_cache_get. rewrite Hskip, Hproxy. simpl.
    rewrite prefetch_redirect_effective by done.
    unfold scene_at. rewrite Hsc. simpl. fold sc0.
    unfold seq_cache_get_from_scene. rewrite Hc0.
    fold key. rewrite (get_ex_miss E c0 key (imbufs w) Hmiss).
    destruct (for_render context) eqn:Hfr; [done|].
    destruct Hnodisk as [?|Hdis]; [done|].
    unfold seq_cache_get_disk. by rewrite Hdis. }
  destruct (lookup_put_ex sc0 c0 p key i (for_render context) Hp Hlive
              (populate_key_fresh E context s timeline_frame ty) Hself Hmiss)
    as (k1 & h & Hk1 & Htemp1 & _ & Hmark & Hhp & Hlook).
  set (k2 := if for_render context then set_is_temp_cache true k1 else k1)
    in *.
  set (c1 := put_ex_cache sc0 c0 p key i).
  set (sc1 := set_ed_cache (Some c1) sc0).
  set (scf := set_ed_cache (Some (set_hash h c1)) sc1).
  set (w1 := store_scene (scene context) scf (IMB_refImBuf i (imbufs w)) w0).
  assert (Hput : seq_cache_put E fuel w context (Some s) timeline_frame ty
                   (Some i) p = Done w1).
  { unfold seq_cache_put. rewrite Hskip, Hproxy. simpl.
    rewrite prefetch_redirect_effective by done.
    rewrite Hget. cbn [mbind outcome_bind].
    unfold seq_cache_put_new, scene_at.
    assert (Hw0 : scenes w0 !! scene context = Some sc0)
      by apply scenes_store_scene.
    rewrite Hw0. cbn [mbind outcome_bind].
    rewrite (seq_cache_create_id _ sc0 c0 Hc0).
    unfold seq_cache_allocate_key. fold key.
    rewrite (put_ex_Done sc0 c0 _ p key i Hc0 Hlive).
    cbn [mbind outcome_bind]. unfold seq_cache_get_from_scene.
    change (ed_cache (set_ed_cache (Some (put_ex_cache sc0 c0 p key i)) sc0))
      with (Some (put_ex_cache sc0 c0 p key i)). cbv iota.
    change (put_ex_cache sc0 c0 p key i) with c1.
    change (hash c1) with (put_ex_hash sc0 c0 p key i).
    rewrite Hmark. cbn [mbind outcome_bind]. unfold key_at. rewrite Hhp.
    cbn [mbind outcome_bind fst].
    assert (Hnw : negb (is_temp_cache k2)
                  && seq_disk_cache_is_enabled E (bmain context) = false).
    { unfold k2. destruct Hnodisk as [->| ->]; [done|].
      by rewrite andb_false_r. }
    fold k2. rewrite Hnw. done. }
  exists w1, scf, (set_hash h c1), k2.
  split; [done|]. split; [done|].
  split; [apply scenes_store_scene|]. split; [done|].
  split; [done|]. split.
  { unfold k2. destruct (for_render context); simpl; [done|].
    by rewrite Htemp1. }
  split; [done|].
  rewrite (seq_cache_get_hit E fuel' w1 context s timeline_frame ty p' scf
             (set_hash h c1) {| ibuf := Some i |} i Heff); try done.
  apply scenes_store_scene.
Qed.

(** X3: a fetch that misses in memory and finds the image in the disk cache
    stores it in memory (for a stage other than final output, without
    recycling): it returns the image read, the cache holds one reference on
    it, and fetching the same key again returns it from memory. *)
Theorem get_from_disk_fills_memory fuel fuel' (w : World) context s
    timeline_frame ty p p' sc ib ims1 :
  let key := seq_cache_populate_key E context s timeline_frame ty in
  let c0 := cache_or_new (bmain context) sc in
  let d := default (seq_disk_cache_create E (bmain context) (scene context))
             (disk_cache c0) in
  effective context → for_render context = false →
  seq_disk_cache_is_enabled E (bmain context) = true →
  scenes w !! scene context = Some sc →
  tail_live c0 → hash c0 !! p = None →
  seq_cache_hashcmp E key key = false →
  BLI_ghash_lookup (seq_cache_hashcmp E) (hash c0) key = None →
  seq_disk_cache_read_file E d key (imbufs w) = (Some ib, ims1) →
  ty ≠ SEQ_CACHE_STORE_FINAL_OUT →
  ∃ w1 sc1 c1 k1,
    seq_cache_get E fuel w context (Some s) timeline_frame ty p
      = Done (Some ib, w1)
    ∧ imbufs w1 = IMB_refImBuf ib ims1
    ∧ scenes w1 !! scene context = Some sc1 ∧ ed_cache sc1 = Some c1
    ∧ hash c1 !! p = Some (k1, {| ibuf := Some ib |})
    ∧ disk_cache c1 = Some d
    ∧ seq_cache_get E fuel' w1 context (Some s) timeline_frame ty p'
      = Done (Some ib,
              {| scenes := scenes w1;
                 imbufs := IMB_refImBuf ib (imbufs w1) |}).
Proof.
  intros key c0 d Heff Hfr Hdisk Hsc Hlive Hp Hself Hmiss Hread Hty.
  pose proof Heff as (Hskip & Hproxy & Hpre).
  set (sc0 := seq_cache_create (bmain context) sc).
  assert (Hc0 : ed_cache sc0 = Some c0) by apply create_cache_or_new.
  set (cd := set_disk_cache (Some d) c0).
  set (scd := set_ed_cache (Some cd) sc0).
  assert (Hmissd : BLI_ghash_lookup (seq_cache_hashcmp E) (hash cd) key
                   = None) by done.
  destruct (lookup_put_ex scd cd p key ib false Hp Hlive
              (populate_key_fresh E context s timeline_frame ty) Hself Hmissd)
    as (k1 & h & Hk1 & _ & _ & Hmark & Hhp & Hlook).
  injection Hmark as <-.
  set (c1 := put_ex_cache scd cd p key ib).
  set (sc1 := set_ed_cache (Some c1) scd).
  set (w1 := store_scene (scene context) sc1 (IMB_refImBuf ib ims1) w).
  assert (Hget : seq_cache_get E fuel w context (Some s) timeline_frame ty p
                 = Done (Some ib, w1)).
  { unfold seq_cache_get. rewrite Hskip, Hproxy. simpl.
    rewrite prefetch_redirect_effective by done.
    unfold scene_at. rewrite Hsc. simpl. fold sc0.
    unfold seq_cache_get_from_scene. rewrite Hc0.
    fold key. rewrite (get_ex_miss E c0 key (imbufs w) Hmiss).
    rewrite Hfr. unfold seq_cache_get_disk. rewrite Hdisk.
    assert (Hd : match disk_cache c0 with
                 | Some d0 => d0
                 | None => seq_disk_cache_create E (bmain context)
                             (scene context)
                 end = d) by (unfold d; by destruct (disk_cache c0)).
    rewrite Hd. fold cd. fold scd. rewrite Hread.
    assert (Hnf : negb (ty =? SEQ_CACHE_STORE_FINAL_OUT) = true).
    { apply negb_true_iff. by apply Z.eqb_neq. }
    rewrite Hnf. simpl. unfold seq_cache_allocate_key. fold key.
    by rewrite (put_ex_Done scd cd _ p key ib eq_refl Hlive). }
  exists w1, sc1, c1, k1.
  split; [done|]. split; [done|].
  split; [apply scenes_store_scene|]. split; [done|].
  split; [done|]. split; [done|].
  rewrite (seq_cache_get_hit E fuel' w1 context s timeline_frame ty p' sc1
             c1 {| ibuf := Some ib |} ib Heff); try done.
  apply scenes_store_scene.
Qed.

(** X4: a store of a key of a stored stage, not for a render, with the disk
    cache enabled and holding no file for the key: the entry is stored and
    the image is written to the disk cache, whose limits are then
    enforced.  The disk cache written to is the one of the cache, created
    by the duplicate check of the store when there was none. *)
Theorem put_stored_writes_disk fuel (w : World) context s timeline_frame ty i
    p sc ims1 :
  let key := seq_cache_populate_key E context s timeline_frame ty in
  let c0 := cache_or_new (bmain context) sc in
  let d := default (seq_disk_cache_create E (bmain context) (scene context))
             (disk_cache c0) in
  effective context → for_render context = false →
  seq_disk_cache_is_enabled E (bmain context) = true →
  scenes w !! scene context = Some sc →
  tail_live c0 → hash c0 !! p = None →
  seq_cache_hashcmp E key key = false →
  BLI_ghash_lookup (seq_cache_hashcmp E) (hash c0) key = None →
  seq_disk_cache_read_file E d key (imbufs w) = (None, ims1) →
  stored (seq_cache_create (bmain context) sc) key = true →
  ∃ w1 sc1 c1 k1,
    seq_cache_put E fuel w context (Some s) timeline_frame ty (Some i) p
      = Done w1
    ∧ imbufs w1 = IMB_refImBuf i ims1
    ∧ scenes w1 !! scene context = Some sc1 ∧ ed_cache sc1 = Some c1
    ∧ hash c1 !! p = Some (k1, {| ibuf := Some i |})
    ∧ is_temp_cache k1 = false
    ∧ disk_cache c1
      = Some (seq_disk_cache_enforce_limits E
                (seq_disk_cache_write_file E d k1 i)).
Proof.
  intros key c0 d Heff Hfr Hdisk Hsc Hlive Hp Hself Hmiss Hread Hst.
  pose proof Heff as (Hskip & Hproxy & Hpre).
  set (sc0 := seq_cache_create (bmain context) sc) in *.
  assert (Hc0 : ed_cache sc0 = Some c0) by apply create_cache_or_new.
  set (cd := set_disk_cache (Some d) c0).
  set (scd := set_ed_cache (Some cd) sc0).
  set (w0 := store_scene (scene context) scd ims1 w).
  assert (Hget : seq_cache_get E fuel w context (Some s) timeline_frame ty p
                 = Done (None, w0)).
  { unfold seq_cache_get. rewrite Hskip, Hproxy. simpl.
    rewrite prefetch_redirect_effective by done.
    unfold scene_at. rewrite Hsc. simpl. fold sc0.
    unfold seq_cache_get_from_scene. rewrite Hc0.
    fold key. rewrite (get_ex_miss E c0 key (imbufs w) Hmiss).
    rewrite Hfr. unfold seq_cache_get_disk. rewrite Hdisk.
    assert (Hd : match disk_cache c0 with
                 | Some d0 => d0
                 | None => seq_disk_cache_create E (bmain context)
                             (scene context)
                 end = d) by (unfold d; by destruct (disk_cache c0)).
    rewrite Hd. fold cd. fold scd. by rewrite Hread. }
  assert (Hmissd : BLI_ghash_lookup (seq_cache_hashcmp E) (hash cd) key
                   = None) by done.
  destruct (lookup_put_ex scd cd p key i false Hp Hlive
              (populate_key_fresh E context s timeline_frame ty) Hself Hmissd)
    as (k1 & h & Hk1 & Htemp1 & _ & Hmark & Hhp & Hlook).
  injection Hmark as <-.
  assert (Hst' : stored scd key = true) by exact Hst.
  rewrite Hst' in Htemp1. simpl in Htemp1.
  set (c1 := put_ex_cache scd cd p key i).
  set (sc1 := set_ed_cache (Some c1) scd).
  set (dw := seq_disk_cache_enforce_limits E
               (seq_disk_cache_write_file E d k1 i)).
  set (cf := set_disk_cache (Some dw) (set_hash (hash c1) c1)).
  exists (store_scene (scene context) (set_ed_cache (Some cf) sc1)
            (IMB_refImBuf i ims1) w0),
    (set_ed_cache (Some cf) sc1), cf, k1.
  split.
  { unfold seq_cache_put. rewrite Hskip, Hproxy. simpl.
    rewrite prefetch_redirect_effective by done.
    rewrite Hget. cbn [mbind outcome_bind].
    unfold seq_cache_put_new, scene_at.
    assert (Hw0 : scenes w0 !! scene context = Some scd)
      by apply scenes_store_scene.
    rewrite Hw0. cbn [mbind outcome_bind].
    rewrite (seq_cache_create_id _ scd cd eq_refl).
    unfold seq_cache_allocate_key. fold key.
    rewrite (put_ex_Done scd cd _ p key i eq_refl Hlive).
    cbn [mbind outcome_bind]. unfold seq_cache_get_from_scene.
    change (ed_cache (set_ed_cache (Some (put_ex_cache scd cd p key i)) scd))
      with (Some (put_ex_cache scd cd p key i)). cbv iota.
    rewrite Hfr. cbn [mbind outcome_bind].
    change (put_ex_cache scd cd p key i) with c1.
    change (hash c1) with (put_ex_hash scd cd p key i).
    unfold key_at. rewrite Hhp. cbn [mbind outcome_bind fst].
    rewrite Htemp1, Hdisk. done. }
  split; [done|]. split; [apply scenes_store_scene|].
  split; [done|]. split; [done|]. split; [done|]. done.
Qed.

(** ** Storing when there is room *)

(** X6: on a scene whose cache has not been created yet
    [seq_cache_put_if_possible] stores nothing and returns false, whatever
    the memory in use: [seq_cache_recycle_item] fails without a cache, and
    nothing creates one. *)
Theorem put_if_possible_without_cache fuel (w : World) context strip_
    timeline_frame ty i p context' s' sc :
  prefetch_redirect E context strip_ = (context', Some s') →
  scenes w !! scene context' = Some sc → ed_cache sc = None →
  seq_cache_put_if_possible E fuel w context strip_ timeline_frame ty i p
  = Done (false, w).
Proof.
  intros Hred Hsc Hc. unfold seq_cache_put_if_possible. rewrite Hred.
  unfold scene_at. rewrite Hsc. simpl.
  unfold seq_cache_recycle_item, seq_cache_get_from_scene. rewrite Hc.
  simpl. rewrite Hc. by rewrite store_scene_id.
Qed.

(** X7: with a cache and the memory within the budget
    [seq_cache_put_if_possible] recycles nothing and returns true, also
    when the store it makes is bypassed (no image, or a context that skips
    the cache or renders a proxy) and nothing is stored. *)
Theorem put_if_possible_bypassed fuel (w : World) context strip_
    timeline_frame ty i p context' s' sc c :
  prefetch_redirect E context strip_ = (context', Some s') →
  scenes w !! scene context' = Some sc → ed_cache sc = Some c →
  seq_cache_is_full E (imbufs w) = false →
  i = None ∨ skip_cache context' = true ∨ is_proxy_render context' = true →
  seq_cache_put_if_possible E fuel w context strip_ timeline_frame ty i p
  = Done (true, w).
Proof.
  intros Hred Hsc Hc Hfull Hby. unfold seq_cache_put_if_possible.
  rewrite Hred. unfold scene_at. rewrite Hsc. simpl.
  unfold seq_cache_recycle_item, seq_cache_get_from_scene. rewrite Hc.
  assert (Hloop : recycle_item_loop E fuel sc (imbufs w)
                  = Done (true, sc, imbufs w)).
  { destruct fuel; simpl; by rewrite Hfull. }
  rewrite Hloop. simpl. rewrite store_scene_id by done.
  unfold seq_cache_put. destruct i as [i|]; [|done].
  destruct Hby as [?|[-> | ->]]; [done|done|].
  by rewrite orb_true_r.
Qed.

End StoreFetch.

Section Iteration.
Context {DiskCache : Type} (E : @Env DiskCache).
Implicit Types (sc : @Scene DiskCache) (c : @SeqCache DiskCache).
Implicit Types (w : @World DiskCache).
Implicit Types (h : gmap positive (SeqCacheKey * SeqCacheItem)).
Implicit Types (ims : gmap positive nat) (p : positive) (key : SeqCacheKey).

(** ** Iterating *)

Section Visits.
Context {U : Type}.
Variable callback_init : U → nat → bool * U.
Variable callback_iter : U → Strip → Z → Z → bool * U.




End Visits.

End Iteration.

Section ForcedInvalidation.
Context {DiskCache : Type} (E : @Env DiskCache).
Implicit Types (sc : @Scene DiskCache) (c : @SeqCache DiskCache).
Implicit Types (w : @World DiskCache).
Implicit Types (h : gmap positive (SeqCacheKey * SeqCacheItem)).
Implicit Types (ims : gmap positive nat) (p : positive) (key : SeqCacheKey).

(** ** Invalidation over the whole changed range *)




End ForcedInvalidation.

(** ** Recycling a whole chain *)









Section ChainRecycling.
Context {DiskCache : Type} (E : @Env DiskCache).
Implicit Types (sc : @Scene DiskCache) (c : @SeqCache DiskCache).
Implicit Types (w : @World DiskCache).
Implicit Types (h : gmap positive (SeqCacheKey * SeqCacheItem)).
Implicit Types (ims : gmap positive nat) (p : positive) (key : SeqCacheKey).


End ChainRecycling.


Section StoreInvariants.
Context {DiskCache : Type} (E : @Env DiskCache).
Implicit Types (sc : @Scene DiskCache) (c : @SeqCache DiskCache).
Implicit Types (w : @World DiskCache).
Implicit Types (h : gmap positive (SeqCacheKey * SeqCacheItem)).
Implicit Types (ims : gmap positive nat) (p : positive) (key : SeqCacheKey).

(** ** What a store keeps *)







(** ** Insertion and removal *)


(** ** Prefetch renders *)

(** X5: a fetch and a store made by a prefetch render work on the cache of the
    context and the strip the render was started from: they are the fetch
    and the store of that context and strip.  (The flags that bypass the
    cache are those of the render itself.) *)
Theorem prefetch_render_uses_original fuel (w : World) context s
    timeline_frame ty i p context' s' :
  is_prefetch_render context = true →
  skip_cache context = false → is_proxy_render context = false →
  seq_prefetch_original_context_get E context = context' →
  seq_prefetch_original_strip_get E s (scene context') = Some s' →
  effective context' →
  seq_cache_get E fuel w context (Some s) timeline_frame ty p
  = seq_cache_get E fuel w context' (Some s') timeline_frame ty p
  ∧ seq_cache_put E fuel w context (Some s) timeline_frame ty i p
    = seq_cache_put E fuel w context' (Some s') timeline_frame ty i p.
Proof.
  intros Hpre Hskip Hproxy Hctx Hs (Hskip' & Hproxy' & Hpre').
  assert (Hred : prefetch_redirect E context (Some s) = (context', Some s')).
  { unfold prefetch_redirect. rewrite Hpre, Hctx. simpl. by rewrite Hs. }
  assert (Hred' : prefetch_redirect E context' (Some s') = (context', Some s'))
    by (by apply prefetch_redirect_effective).
  split.
  - unfold seq_cache_get. rewrite Hskip, Hproxy, Hskip', Hproxy'. simpl.
    by rewrite Hred, Hred'.
  - unfold seq_cache_put. destruct i as [i|]; [|done].
    rewrite Hskip, Hproxy, Hskip', Hproxy'. simpl.
    by rewrite Hred, Hred'.
Qed.

End StoreInvariants.

(** * Examples for the further properties *)










Lemma nan_key_never_found_witness :
  seq_cache_get_ex ex_env ex_cache_finals
    (seq_cache_populate_key ex_env ex_context ex_strip S754_nan
       SEQ_CACHE_STORE_PREPROCESSED) ex_imbufs
  = (None, ex_imbufs).
Proof.
  apply (nan_key_never_found ex_env ex_cache_finals
           (seq_cache_populate_key ex_env ex_context ex_strip S754_nan
              SEQ_CACHE_STORE_PREPROCESSED) ex_imbufs).
  reflexivity.
Defined.

Lemma hashhash_respects_hashcmp_witness :
  seq_cache_hashhash ex_env (ex_key 5 SEQ_CACHE_STORE_RAW)
  = seq_cache_hashhash ex_env
      (set_is_temp_cache false (ex_key 5 SEQ_CACHE_STORE_RAW)).
Proof.
  apply (hashhash_respects_hashcmp ex_env).
  - reflexivity.
  - intros (s & Ha & _). vm_compute in Ha. discriminate Ha.
Defined.


Lemma put_ex_all_keeps_links_witness :
  ∃ sc' ims' c',
    put_ex_all (ex_scene None) ex_imbufs
      [(1%positive, ex_key 0 SEQ_CACHE_STORE_RAW, 100%positive);
       (2%positive, ex_key 5 SEQ_CACHE_STORE_RAW, 101%positive)]
    = Done (sc', ims')
    ∧ ed_cache sc' = Some c'
    ∧ links_ok (hash c') ∧ tail_ok c'
    ∧ size (hash c') = 2%nat.
Proof.
  destruct (put_ex_all_keeps_links
              [(1%positive, ex_key 0 SEQ_CACHE_STORE_RAW, 100%positive);
               (2%positive, ex_key 5 SEQ_CACHE_STORE_RAW, 101%positive)]
              (ex_scene None) ex_cache ex_imbufs)
    as (sc' & ims' & c' & Hrun & Hc & Hok & Htail & Hsize & _).
  - reflexivity.
  - apply links_ok_empty.
  - by intros t.
  - repeat constructor.
  - by apply (bool_decide_unpack _).
  - intros p _. apply lookup_empty.
  - by exists sc', ims', c'.
Defined.

(** A strip that overrides the scene and stores nothing. *)
Definition ex_strip_override : Strip :=
  {| strip_addr := 7; strip_type := 0; strip_cache_flag := SEQ_CACHE_OVERRIDE |}.

Lemma stored_types_policy_witness :
  ∃ sc' c' k',
    seq_cache_put_ex (ex_scene None) ex_imbufs 1
      (seq_cache_populate_key ex_env ex_context ex_strip_override
         (F32.of_int 0) SEQ_CACHE_STORE_FINAL_OUT) 100
    = Done (sc', IMB_refImBuf 100 ex_imbufs)
    ∧ ed_cache sc' = Some c'
    ∧ key_of (hash c') 1 = Some k'
    ∧ is_temp_cache k' = false.
Proof.
  destruct (stored_types_policy (ex_scene None) ex_cache ex_imbufs 1
              (seq_cache_populate_key ex_env ex_context ex_strip_override
                 (F32.of_int 0) SEQ_CACHE_STORE_FINAL_OUT) 100)
    as (sc' & c' & k' & Hrun & Hc & Hk & Hfinal & _).
  - reflexivity.
  - by intros t.
  - reflexivity.
  - done.
  - exists sc', c', k'. split; [done|]. split; [done|]. split; [done|].
    by apply Hfinal.
Defined.








Lemma put_then_get_witness :
  ∃ w1,
    seq_cache_put ex_env 2 (ex_world None) ex_context (Some ex_strip)
      (F32.of_int 5) SEQ_CACHE_STORE_RAW (Some 100%positive) 1 = Done w1
    ∧ imbufs w1 = IMB_refImBuf 100 ex_imbufs
    ∧ seq_cache_get ex_env 2 w1 ex_context (Some ex_strip) (F32.of_int 5)
        SEQ_CACHE_STORE_RAW 2
      = Done (Some 100%positive,
              {| scenes := scenes w1;
                 imbufs := IMB_refImBuf 100 (imbufs w1) |}).
Proof.
  destruct (put_then_get ex_env 2 2 (ex_world None) ex_context ex_strip
              (F32.of_int 5) SEQ_CACHE_STORE_RAW 100 1 2 (ex_scene None))
    as (w1 & sc1 & c1 & k1 & Hput & Hims & _ & _ & _ & _ & _ & Hget).
  - repeat split.
  - by right.
  - reflexivity.
  - by intros t.
  - reflexivity.
  - reflexivity.
  - reflexivity.
  - by exists w1.
Defined.

(** ** With a disk cache

    The same world with a disk tier that holds one image at most: it
    answers every read with the image it holds. *)
Definition ex_env_disk : @Env (option positive) := {|
  time_start_frame_get := fun s => F32.of_int (ex_start s);
  time_left_handle_frame_get := ex_start;
  time_right_handle_frame_get :=
    fun s => if Pos.eqb (strip_addr s) 8 then 20 else 10;
  give_frame_index := ex_give_frame_index;
  scene_views_format := fun _ => 0;
  seq_prefetch_original_context_get := fun context => context;
  seq_prefetch_original_strip_get := fun s _ => Some s;
  memcachelimit := 1;
  MEM_get_memory_in_use := fun ims => 1048576 * Z.of_nat (size ims);
  seq_disk_cache_is_enabled := fun _ => true;
  seq_disk_cache_create := fun _ _ => None;
  seq_disk_cache_read_file := fun d _ ims => (d, ims);
  seq_disk_cache_write_file := fun _ _ i => Some i;
  seq_disk_cache_enforce_limits := fun d => d;
  seq_disk_cache_invalidate := fun _ _ _ _ => None;
|}.

Definition ex_scene_disk (d : option (option positive))
    : @Scene (option positive) :=
  {| ed_cache := Some {| cache_bmain := 1; hash := ∅; last_key := None;
                         disk_cache := d |};
     ed_cache_flag := ex_cache_flag; r_cfra := 0; prefetch_job := None |}.

Definition ex_world_disk (d : option (option positive))
    : @World (option positive) :=
  {| scenes := {[ 1%positive := ex_scene_disk d ]}; imbufs := ex_imbufs |}.

Lemma get_from_disk_fills_memory_witness :
  ∃ w1,
    seq_cache_get ex_env_disk 2 (ex_world_disk (Some (Some 103%positive)))
      ex_context (Some ex_strip) (F32.of_int 5) SEQ_CACHE_STORE_RAW 1
    = Done (Some 103%positive, w1)
    ∧ imbufs w1 = IMB_refImBuf 103 ex_imbufs
    ∧ seq_cache_get ex_env_disk 2 w1 ex_context (Some ex_strip)
        (F32.of_int 5) SEQ_CACHE_STORE_RAW 2
      = Done (Some 103%positive,
              {| scenes := scenes w1;
                 imbufs := IMB_refImBuf 103 (imbufs w1) |}).
Proof.
  destruct (get_from_disk_fills_memory ex_env_disk 2 2
              (ex_world_disk (Some (Some 103%positive))) ex_context ex_strip
              (F32.of_int 5) SEQ_CACHE_STORE_RAW 1 2
              (ex_scene_disk (Some (Some 103%positive))) 103 ex_imbufs)
    as (w1 & sc1 & c1 & k1 & Hget & Hims & _ & _ & _ & _ & Hagain).
  - repeat split.
  - reflexivity.
  - reflexivity.
  - reflexivity.
  - by intros t.
  - reflexivity.
  - reflexivity.
  - reflexivity.
  - reflexivity.
  - done.
  - by exists w1.
Defined.

Lemma put_stored_writes_disk_witness :
  ∃ w1 sc1 c1,
    seq_cache_put ex_env_disk 2 (ex_world_disk None) ex_context
      (Some ex_strip) (F32.of_int 5) SEQ_CACHE_STORE_RAW (Some 100%positive) 1
    = Done w1
    ∧ scenes w1 !! 1%positive = Some sc1 ∧ ed_cache sc1 = Some c1
    ∧ is_Some (hash c1 !! 1%positive)
    ∧ disk_cache c1 = Some (Some 100%positive).
Proof.
  destruct (put_stored_writes_disk ex_env_disk 2 (ex_world_disk None)
              ex_context ex_strip (F32.of_int 5) SEQ_CACHE_STORE_RAW 100 1
              (ex_scene_disk None) ex_imbufs)
    as (w1 & sc1 & c1 & k1 & Hput & _ & Hsc & Hc & Hp & _ & Hd).
  - repeat split.
  - reflexivity.
  - reflexivity.
  - reflexivity.
  - by intros t.
  - reflexivity.
  - reflexivity.
  - reflexivity.
  - reflexivity.
  - reflexivity.
  - exists w1, sc1, c1. split; [done|]. split; [done|]. split; [done|].
    split; [by eexists|done].
Defined.

(** ** Storing when there is room *)

Definition ex_world_no_cache : @World unit :=
  {| scenes := {[ 1%positive := set_ed_cache None (ex_scene None) ]};
     imbufs := ex_imbufs |}.

Lemma put_if_possible_without_cache_witness :
  seq_cache_put_if_possible ex_env 2 ex_world_no_cache ex_context
    (Some ex_strip) (F32.of_int 5) SEQ_CACHE_STORE_FINAL_OUT
    (Some 100%positive) 1
  = Done (false, ex_world_no_cache).
Proof.
  apply (put_if_possible_without_cache ex_env 2 ex_world_no_cache ex_context
           (Some ex_strip) (F32.of_int 5) SEQ_CACHE_STORE_FINAL_OUT
           (Some 100%positive) 1 ex_context ex_strip
           (set_ed_cache None (ex_scene None)));
    reflexivity.
Defined.

(** One image buffer in use: within the budget. *)
Definition ex_world_room : @World unit :=
  {| scenes := {[ 1%positive := ex_scene None ]};
     imbufs := {[ 100%positive := 0%nat ]} |}.

Lemma put_if_possible_bypassed_witness :
  seq_cache_put_if_possible ex_env 2 ex_world_room ex_context
    (Some ex_strip) (F32.of_int 5) SEQ_CACHE_STORE_FINAL_OUT None 1
  = Done (true, ex_world_room).
Proof.
  apply (put_if_possible_bypassed ex_env 2 ex_world_room ex_context
           (Some ex_strip) (F32.of_int 5) SEQ_CACHE_STORE_FINAL_OUT None 1
           ex_context ex_strip (ex_scene None) ex_cache);
    first [reflexivity|by left].
Defined.

(** ** Iterating *)


(** ** Invalidation *)


(** ** The entry that does not fit *)




(** ** Recycling a whole chain *)


(** ** What a store keeps *)



(** ** Insertion and removal *)


(** ** Prefetch renders *)

(** The prefetch subsystem maps the context of a prefetch render to the
    context it was started from. *)
Definition ex_original (context : RenderData) : RenderData :=
  {| bmain := bmain context; scene := scene context;
     rectx := rectx context; recty := recty context;
     preview_render_size := preview_render_size context;
     motion_blur_shutter := motion_blur_shutter context;
     motion_blur_samples := motion_blur_samples context;
     view_id := view_id context; skip_cache := skip_cache context;
     is_proxy_render := is_proxy_render context;
     is_prefetch_render := false; for_render := for_render context;
     context_task_id := context_task_id context |}.

Definition ex_env_prefetch : @Env unit := {|
  time_start_frame_get := fun s => F32.of_int (ex_start s);
  time_left_handle_frame_get := ex_start;
  time_right_handle_frame_get :=
    fun s => if Pos.eqb (strip_addr s) 8 then 20 else 10;
  give_frame_index := ex_give_frame_index;
  scene_views_format := fun _ => 0;
  seq_prefetch_original_context_get := ex_original;
  seq_prefetch_original_strip_get := fun s _ => Some s;
  memcachelimit := 1;
  MEM_get_memory_in_use := fun ims => 1048576 * Z.of_nat (size ims);
  seq_disk_cache_is_enabled := fun _ => false;
  seq_disk_cache_create := fun _ _ => tt;
  seq_disk_cache_read_file := fun _ _ ims => (None, ims);
  seq_disk_cache_write_file := fun d _ _ => d;
  seq_disk_cache_enforce_limits := fun d => d;
  seq_disk_cache_invalidate := fun d _ _ _ => d;
|}.

Definition ex_prefetch_context : RenderData :=
  {| bmain := 1; scene := 1; rectx := 640; recty := 480;
     preview_render_size := 0; motion_blur_shutter := F32.zero;
     motion_blur_samples := 0; view_id := 0;
     skip_cache := false; is_proxy_render := false;
     is_prefetch_render := true; for_render := false; context_task_id := 0 |}.

Lemma prefetch_render_uses_original_witness :
  seq_cache_get ex_env_prefetch 2 (ex_world None) ex_prefetch_context
    (Some ex_strip) (F32.of_int 5) SEQ_CACHE_STORE_RAW 1
  = seq_cache_get ex_env_prefetch 2 (ex_world None) ex_context
      (Some ex_strip) (F32.of_int 5) SEQ_CACHE_STORE_RAW 1
  ∧ seq_cache_put ex_env_prefetch 2 (ex_world None) ex_prefetch_context
      (Some ex_strip) (F32.of_int 5) SEQ_CACHE_STORE_RAW (Some 100%positive) 1
    = seq_cache_put ex_env_prefetch 2 (ex_world None) ex_context
        (Some ex_strip) (F32.of_int 5) SEQ_CACHE_STORE_RAW
        (Some 100%positive) 1.
Proof.
  apply (prefetch_render_uses_original ex_env_prefetch 2 (ex_world None)
           ex_prefetch_context ex_strip (F32.of_int 5) SEQ_CACHE_STORE_RAW
           (Some 100%positive) 1 ex_context ex_strip);
    first [reflexivity|repeat split].
Defined.
